(** * peon-ping: sound cues for session events

    A shallow embedding of [peon-ping.ts]: the configuration and state
    records and their JSON files, the sound selector [pickSound], the pack
    resolver [resolveActivePack], the [event] handler with its
    rapid-prompt bookkeeping, the list of installed packs and the three
    tools [peon_pack], [peon_toggle] and [peon_volume].

    Conventions.
    - JavaScript numbers are rationals ([Q]); [Date.now() / 1000] and the
      configured window and threshold are such numbers. The subtraction
      [now - t] of the code is [JS.minus], which rounds the difference to
      the nearest double.
    - A JavaScript object used as a dictionary is the [gmap string _] of
      its own properties. A look-up with a session id as key goes through
      [JS.get_property], which also sees the properties inherited from
      [Object.prototype]; the categories are five fixed names, none of
      them inherited, and are looked up in the map.
    - [Math.random()] is a value of [Random], a rational in [[0,1)]; every
      function that draws takes the drawn value as an argument. The
      product in [Math.floor(Math.random() * n)] is taken without
      rounding; either way the index is below [n], and the properties
      below depend on the draw only through that index.
    - A file is described by what [JSON.parse] makes of its text; the
      runtime directory holds the two files [config.json] and [state.json].
      The values in a parsed file have the types the interfaces declare.
      [ensureRuntimeDir] only creates the directory of the two files and
      has no counterpart here; [writeFileSync] succeeds.
    - A thrown [TypeError] is the [Throw] completion. *)

From Stdlib Require Import ZArith QArith Qround Lia.
From stdpp Require Import base strings list sorting gmap fin_maps.

Local Open Scope string_scope.

(** ** JavaScript values *)

Module JS.

(** [x < y] and [x >= y] on numbers. *)
Definition lt (x y : Q) : bool := negb (Qle_bool y x).
Definition ge (x y : Q) : bool := Qle_bool y x.

#[global] Instance Qle_decision (x y : Q) : Decision (x <= y)%Q.
Proof.
  destruct (Qlt_le_dec y x) as [H | H]; [right | left; exact H].
  by apply Qlt_not_le.
Defined.

(** The nearest integer to [a / b], for [0 <= a] and [0 < b], ties to
    even. *)
Definition nearest_even (a b : Z) : Z :=
  let q := (a / b)%Z in
  match (2 * (a mod b) ?= b)%Z with
  | Lt => q
  | Gt => (q + 1)%Z
  | Eq => if Z.even q then q else (q + 1)%Z
  end.

(** [n / d] divided by [2 ^ e], as a fraction. *)
Definition scaled (n d e : Z) : Z * Z :=
  if (0 <=? e)%Z then (n, d * 2 ^ e)%Z else (n * 2 ^ (- e), d)%Z.

(** The double nearest to a rational: 53 bits, ties to even, exponents
    from -1074. A rational beyond the largest double, which rounds to an
    infinity, is outside this model of numbers. *)
Definition to_double (x : Q) : Q :=
  let n := Z.abs (Qnum x) in
  let d := Z.pos (Qden x) in
  if (n =? 0)%Z then 0%Q else
  let e0 := (Z.log2 n - Z.log2 d - 52)%Z in
  let '(a0, b0) := scaled n d e0 in
  let e1 := if (a0 <? 2 ^ 52 * b0)%Z then (e0 - 1)%Z else e0 in
  let e := Z.max e1 (-1074) in
  let '(a, b) := scaled n d e in
  let m := (Z.sgn (Qnum x) * nearest_even a b)%Z in
  if (0 <=? e)%Z then inject_Z (m * 2 ^ e) else (m # Z.to_pos (2 ^ (- e)))%Q.

(** [x - y] on two doubles. *)
Definition minus (x y : Q) : Q := to_double (x - y).

(** The names of the properties every plain object inherits from
    [Object.prototype]. *)
Definition Object_prototype_names : list string :=
  ["constructor"; "__defineGetter__"; "__defineSetter__"; "hasOwnProperty";
   "__lookupGetter__"; "__lookupSetter__"; "isPrototypeOf";
   "propertyIsEnumerable"; "toString"; "valueOf"; "__proto__";
   "toLocaleString"].

(** What [obj[key]] finds on a plain object whose own properties are
    [obj]: an own value, else for a name of [Object.prototype] the
    inherited function or object, else [undefined]. *)
Inductive property (V : Type) :=
| Own (v : V)
| Inherited
| Undefined.
Arguments Own {V} v.
Arguments Inherited {V}.
Arguments Undefined {V}.

Definition get_property {V} (obj : gmap string V) (key : string) : property V :=
  match obj !! key with
  | Some v => Own v
  | None =>
    if bool_decide (key ∈ Object_prototype_names) then Inherited else Undefined
  end.

(** The look-up of [key] does not end at an inherited property: [key] is
    an own property, or no name of [Object.prototype]. *)
Definition own_or_plain {V} (obj : gmap string V) (key : string) : Prop :=
  obj !! key ≠ None ∨ key ∉ Object_prototype_names.

(** Truthiness of a string: only the empty string is falsy. *)
Definition truthy (s : string) : bool := negb (String.eqb s "").

(** [arr.length] as a number. *)
Definition length_of {A} (l : list A) : Q := inject_Z (Z.of_nat (length l)).

(** [arr.includes(x)] on an array of strings. *)
Definition includes (l : list string) (x : string) : bool :=
  bool_decide (x ∈ l).

(** The value returned by one call of [Math.random()]. *)
Record Random := {
  rnd_value : Q;
  rnd_lo : (0 <= rnd_value)%Q;
  rnd_hi : (rnd_value < 1)%Q
}.

(** [Math.floor(Math.random() * n)] for an array length [n]. *)
Definition random_index (rnd : Random) (n : nat) : nat :=
  Z.to_nat (Qfloor (rnd_value rnd * inject_Z (Z.of_nat n))).

(** The draw [k / n], which selects index [k] among [n]. *)
Definition draw (k n : nat) (H : k < n) : Random.
Proof.
  refine {| rnd_value := Z.of_nat k # Pos.of_nat n |}.
  - unfold Qle; simpl; lia.
  - unfold Qlt; simpl. rewrite Z.mul_1_r, Z.mul_1_l.
    destruct n as [|n]; [lia|]. rewrite <- Pos.of_nat_succ. lia.
Defined.

Inductive exn := TypeError.

(** How a call ends: with a value, or by throwing. *)
Inductive completion (A : Type) :=
| Normal (a : A)
| Throw (e : exn).
Arguments Normal {A} a.
Arguments Throw {A} e.

Definition draw_0_of_1 : Random := draw 0 1 ltac:(lia).
Definition draw_0_of_2 : Random := draw 0 2 ltac:(lia).
Definition draw_1_of_2 : Random := draw 1 2 ltac:(lia).

End JS.
Import JS.

(** ** Data model (the interfaces of the source) *)

Record SoundEntry := {
  file : string;
  line : string
}.

Record CategoryEntry := {
  sounds : list SoundEntry
}.

Record PackManifest := {
  name : string;
  display_name : string;
  manifest_categories : gmap string CategoryEntry
}.

Record PeonConfig := {
  active_pack : string;
  volume : Q;
  paused : bool;
  categories : gmap string bool;
  annoyed_threshold : Q;
  annoyed_window_seconds : Q;
  pack_rotation : list string
}.

Record PeonState := {
  last_played : gmap string string;
  prompt_timestamps : gmap string (list Q);
  session_packs : gmap string string
}.

Inductive SoundCategory :=
| greeting
| complete
| error
| permission
| annoyed.

(** The string a [SoundCategory] is at run time. *)
Definition category_key (c : SoundCategory) : string :=
  match c with
  | greeting => "greeting"
  | complete => "complete"
  | error => "error"
  | permission => "permission"
  | annoyed => "annoyed"
  end.

#[global] Instance SoundEntry_eq_dec : EqDecision SoundEntry.
Proof. solve_decision. Defined.

#[global] Instance SoundCategory_eq_dec : EqDecision SoundCategory.
Proof. solve_decision. Defined.

Definition DEFAULT_CONFIG : PeonConfig := {|
  active_pack := "peon";
  volume := 1 # 2;
  paused := false;
  categories :=
    <["greeting" := true]> (<["complete" := true]> (<["error" := true]>
      (<["permission" := true]> (<["annoyed" := true]> ∅))));
  annoyed_threshold := 3;
  annoyed_window_seconds := 10;
  pack_rotation := []
|}.

(** [{ last_played: {}, prompt_timestamps: {}, session_packs: {} }] *)
Definition EMPTY_STATE : PeonState := {|
  last_played := ∅;
  prompt_timestamps := ∅;
  session_packs := ∅
|}.

(** [state.last_played[category] = f] *)
Definition set_last_played (state : PeonState) (category f : string) : PeonState := {|
  last_played := <[category := f]> (last_played state);
  prompt_timestamps := prompt_timestamps state;
  session_packs := session_packs state
|}.

(** [state.prompt_timestamps[sessionID] = ts] *)
Definition set_prompt_timestamps (state : PeonState) (sessionID : string) (ts : list Q)
  : PeonState := {|
  last_played := last_played state;
  prompt_timestamps := <[sessionID := ts]> (prompt_timestamps state);
  session_packs := session_packs state
|}.

(** [state.session_packs[sessionID] = pack] *)
Definition set_session_pack (state : PeonState) (sessionID pack : string) : PeonState := {|
  last_played := last_played state;
  prompt_timestamps := prompt_timestamps state;
  session_packs := <[sessionID := pack]> (session_packs state)
|}.

(** ** The sound selector *)

(** [sounds.filter((s) => s.file !== lastFile)] *)
Definition not_last (lastFile : string) (sounds : list SoundEntry) : list SoundEntry :=
  filter (λ s, file s ≠ lastFile) sounds.

(** The [candidates] of a category, given [state.last_played]. *)
Definition candidates_of (category : SoundCategory) (state : PeonState)
    (cat : CategoryEntry) : list SoundEntry :=
  let sounds := sounds cat in
  let lastFile := default "" (last_played state !! category_key category) in
  if decide (length sounds ≤ 1)%nat then sounds else not_last lastFile sounds.

Definition pickSound (rnd : Random) (manifest : PackManifest)
    (category : SoundCategory) (state : PeonState)
  : completion (option SoundEntry * PeonState) :=
  match manifest_categories manifest !! category_key category with
  | None => Normal (None, state)
  | Some cat =>
    match sounds cat with
    | [] => Normal (None, state)
    | _ :: _ =>
      let candidates := candidates_of category state cat in
      match candidates !! random_index rnd (length candidates) with
      | None => Throw TypeError (* [pick] is undefined, [pick.file] throws *)
      | Some pick =>
        Normal (Some pick, set_last_played state (category_key category) (file pick))
      end
    end
  end.

(** ** The pack resolver *)

(** [state.session_packs[sessionID] = pack] as the resolver does it, with
    a string [pack]: for the key [__proto__] that is not an own property
    the assignment reaches the setter of [Object.prototype], which ignores
    a string, and nothing is recorded. *)
Definition assign_session_pack (state : PeonState) (sessionID pack : string)
  : PeonState :=
  if bool_decide (sessionID = "__proto__")
     && bool_decide (session_packs state !! sessionID = None)
  then state
  else set_session_pack state sessionID pack.

Definition resolveActivePack (rnd : Random) (config : PeonConfig)
    (state : PeonState) (sessionID : string) : string * PeonState :=
  match pack_rotation config with
  | [] => (active_pack config, state)
  | first :: _ =>
    (* the index is below the length ([random_index_lt]), so the default
       of [nth] is never used *)
    let picked :=
      nth (random_index rnd (length (pack_rotation config)))
          (pack_rotation config) first in
    let assign := (picked, assign_session_pack state sessionID picked) in
    match get_property (session_packs state) sessionID with
    | Own existing =>
      if truthy existing && includes (pack_rotation config) existing
      then (existing, state)
      else assign
    | Inherited => assign (* truthy, and not a string of the rotation *)
    | Undefined => assign
    end
  end.

(** Calls of the resolver for one session, one after the other, each on
    the state the one before left; the packs returned and the last state. *)
Fixpoint resolve_calls (rnds : list Random) (config : PeonConfig)
    (state : PeonState) (sessionID : string) : list string * PeonState :=
  match rnds with
  | [] => ([], state)
  | rnd :: rest =>
    let '(pack, state) := resolveActivePack rnd config state sessionID in
    let '(more, state) := resolve_calls rest config state sessionID in
    (pack :: more, state)
  end.

(** ** The configuration and state files *)

(** What [JSON.parse] returns: [null], an object with the fields [R]
    describes, or any other value (number, string, boolean, array), none of
    whose properties is a field of the records read here. *)
Inductive JsonValue (R : Type) :=
| JNull
| JOther
| JObject (fields : R).
Arguments JNull {R}.
Arguments JOther {R}.
Arguments JObject {R} fields.

(** The text of a file: text [JSON.parse] rejects, or text it turns into
    a value. *)
Inductive FileText (R : Type) :=
| Malformed
| Text (v : JsonValue R).
Arguments Malformed {R}.
Arguments Text {R} v.

(** [JSON.parse(text)]; [None] is the thrown [SyntaxError], which both
    callers catch. *)
Definition JSON_parse {R} (text : FileText R) : option (JsonValue R) :=
  match text with
  | Malformed => None
  | Text v => Some v
  end.

(** The fields of a parsed [config.json]; [None] is a missing key. *)
Record RawConfig := {
  raw_active_pack : option string;
  raw_volume : option Q;
  raw_paused : option bool;
  raw_categories : option (gmap string bool);
  raw_annoyed_threshold : option Q;
  raw_annoyed_window_seconds : option Q;
  raw_pack_rotation : option (list string)
}.

(** The fields of a parsed [state.json]; [None] is a key that is missing
    or [null]. *)
Record RawState := {
  raw_last_played : option (gmap string string);
  raw_prompt_timestamps : option (gmap string (list Q));
  raw_session_packs : option (gmap string string)
}.

(** [JSON.stringify(config, null, 2)] *)
Definition stringify_config (config : PeonConfig) : FileText RawConfig :=
  Text (JObject {|
    raw_active_pack := Some (active_pack config);
    raw_volume := Some (volume config);
    raw_paused := Some (paused config);
    raw_categories := Some (categories config);
    raw_annoyed_threshold := Some (annoyed_threshold config);
    raw_annoyed_window_seconds := Some (annoyed_window_seconds config);
    raw_pack_rotation := Some (pack_rotation config)
  |}).

(** [JSON.stringify(state, null, 2)] *)
Definition stringify_state (state : PeonState) : FileText RawState :=
  Text (JObject {|
    raw_last_played := Some (last_played state);
    raw_prompt_timestamps := Some (prompt_timestamps state);
    raw_session_packs := Some (session_packs state)
  |}).

(** [{ ...base, ...raw }] *)
Definition spread (base : PeonConfig) (raw : RawConfig) : PeonConfig := {|
  active_pack := default (active_pack base) (raw_active_pack raw);
  volume := default (volume base) (raw_volume raw);
  paused := default (paused base) (raw_paused raw);
  categories := default (categories base) (raw_categories raw);
  annoyed_threshold := default (annoyed_threshold base) (raw_annoyed_threshold raw);
  annoyed_window_seconds :=
    default (annoyed_window_seconds base) (raw_annoyed_window_seconds raw);
  pack_rotation := default (pack_rotation base) (raw_pack_rotation raw)
|}.

(** The runtime directory: [CONFIG_PATH] and [STATE_PATH], [None] when the
    file does not exist. *)
Record Files := {
  config_json : option (FileText RawConfig);
  state_json : option (FileText RawState)
}.

(** Code that reads and writes the files. *)
Definition IO (A : Type) : Type := Files → A * Files.

(** [writeFileSync(CONFIG_PATH, text)] *)
Definition write_config (text : FileText RawConfig) (fs : Files) : Files :=
  {| config_json := Some text; state_json := state_json fs |}.

(** [writeFileSync(STATE_PATH, text)] *)
Definition write_state (text : FileText RawState) (fs : Files) : Files :=
  {| config_json := config_json fs; state_json := Some text |}.

Definition loadConfig : IO PeonConfig := λ fs,
  match config_json fs with
  | None => (DEFAULT_CONFIG, write_config (stringify_config DEFAULT_CONFIG) fs)
  | Some text =>
    match JSON_parse text with
    | Some (JObject raw) => (spread DEFAULT_CONFIG raw, fs)
    | Some JNull | Some JOther => (DEFAULT_CONFIG, fs)
    | None => (DEFAULT_CONFIG, fs)
    end
  end.

Definition loadState : IO PeonState := λ fs,
  match state_json fs with
  | None => (EMPTY_STATE, fs)
  | Some text =>
    match JSON_parse text with
    | Some (JObject raw) =>
      ({| last_played := default ∅ (raw_last_played raw);
          prompt_timestamps := default ∅ (raw_prompt_timestamps raw);
          session_packs := default ∅ (raw_session_packs raw) |}, fs)
    | Some JOther => (EMPTY_STATE, fs)
    | Some JNull => (EMPTY_STATE, fs) (* [raw.last_played] throws; caught *)
    | None => (EMPTY_STATE, fs)
    end
  end.

Definition saveState (state : PeonState) : IO unit := λ fs,
  (tt, write_state (stringify_state state) fs).

Definition saveConfig (config : PeonConfig) : IO unit := λ fs,
  (tt, write_config (stringify_config config) fs).

(** ** The event handler *)

(** The host events the handler distinguishes, with the properties it
    reads. [session_error] may come without a session id; [other_event] is
    any other [event.type]. *)
Inductive Event :=
| session_created (info_id : string)
| session_idle (sessionID : string)
| session_error (sessionID : option string)
| permission_asked (sessionID : string)
| message_updated (role : string) (sessionID : string)
| other_event (type : string).

(** What the handler asks of the outside: [afplay] on a sound of a pack,
    and a desktop notification. *)
Inductive Action :=
| Afplay (vol : Q) (pack : string) (sound_file : string)
| Notification (message : string).

(** What one run of the handler gets from the outside. *)
Record World := {
  now : Q;                            (* [Date.now() / 1000] *)
  rnd_pack : Random;                  (* the draw of [resolveActivePack] *)
  rnd_sound : Random;                 (* the draw of [pickSound] *)
  packs : gmap string PackManifest;   (* [loadManifest]: absent is [null] *)
  sound_exists : string → string → bool; (* [existsSync(soundPath)] *)
  foreground : option string          (* frontmost application, trimmed;
                                         [None] when the query fails *)
}.

Definition loadManifest (w : World) (packName : string) : option PackManifest :=
  packs w !! packName.

Definition terminals : list string :=
  ["Terminal"; "iTerm2"; "Warp"; "Alacritty"; "kitty"; "WezTerm"; "Ghostty"].

(** The local variables the [switch] on [event.type] sets. *)
Record Locals := {
  category : option SoundCategory;
  notify : bool;
  notifyMessage : string;
  sessionID : string
}.

(** The timestamps of the session still inside the window, then [now]. *)
Definition observe (now window : Q) (stored : list Q) : list Q :=
  (filter (λ t, lt (minus now t) window = true) stored ++ [now])%list.

(** The [switch (event.type)]; [None] is a [return] from the handler
    inside the switch. For a user message the stored timestamps are
    [state.prompt_timestamps[sessionID] ?? []]: an inherited property is
    not nullish and has no [filter], so the call throws. *)
Definition switch_event (now : Q) (config : PeonConfig) (ev : Event)
  : IO (completion (option Locals)) := λ fs,
  match ev with
  | session_created info_id =>
    (Normal (Some {| category := Some greeting; notify := false;
                     notifyMessage := ""; sessionID := info_id |}), fs)
  | session_idle sid =>
    (Normal (Some {| category := Some complete; notify := true;
                     notifyMessage := "Task complete"; sessionID := sid |}), fs)
  | session_error sid =>
    (Normal (Some {| category := Some error; notify := true;
                     notifyMessage := "Session error";
                     sessionID := default "" sid |}), fs)
  | permission_asked sid =>
    (Normal (Some {| category := Some permission; notify := true;
                     notifyMessage := "Permission needed"; sessionID := sid |}), fs)
  | message_updated role sid =>
    if negb (String.eqb role "user") then (Normal None, fs) else
    let '(state, fs) := loadState fs in
    let window := annoyed_window_seconds config in
    let threshold := annoyed_threshold config in
    match get_property (prompt_timestamps state) sid with
    | Inherited => (Throw TypeError, fs)
    | found =>
      let stored := match found with Own ts => ts | _ => [] end in
      let timestamps := observe now window stored in
      let state := set_prompt_timestamps state sid timestamps in
      let '(_, fs) := saveState state fs in
      (Normal (Some {|
         category :=
           if ge (length_of timestamps) threshold
              && negb (bool_decide (categories config !! "annoyed" = Some false))
           then Some annoyed else None;
         notify := false; notifyMessage := ""; sessionID := sid |}), fs)
    end
  | other_event _ => (Normal None, fs)
  end.

(** The part of the handler after a sound was picked. *)
Definition play (w : World) (config : PeonConfig) (v : Locals)
    (activePack : string) (sound : option SoundEntry) : list Action :=
  match sound with
  | None => []
  | Some sound =>
    if negb (sound_exists w activePack (file sound)) then [] else
    Afplay (volume config) activePack (file sound) ::
    (if notify v then
       let focused :=
         match foreground w with
         | Some app => includes terminals app
         | None => false
         end in
       if focused then [] else [Notification (notifyMessage v)]
     else [])
  end.

(** The handler after the [switch]: from [if (!category) return] on. *)
Definition cue (w : World) (config : PeonConfig) (v : Locals)
  : IO (completion (list Action)) := λ fs,
  match category v with
  | None => (Normal [], fs)
  | Some c =>
    if bool_decide (categories config !! category_key c = Some false)
    then (Normal [], fs) else
    let '(state, fs) := loadState fs in
    let '(activePack, state) :=
      resolveActivePack (rnd_pack w) config state (sessionID v) in
    match loadManifest w activePack with
    | None => (Normal [], fs)
    | Some manifest =>
      match pickSound (rnd_sound w) manifest c state with
      | Throw e => (Throw e, fs)
      | Normal (sound, state) =>
        let '(_, fs) := saveState state fs in
        (Normal (play w config v activePack sound), fs)
      end
    end
  end.

Definition event (w : World) (ev : Event) : IO (completion (list Action)) := λ fs,
  let '(config, fs) := loadConfig fs in
  if paused config then (Normal [], fs) else
  match switch_event (now w) config ev fs with
  | (Throw e, fs) => (Throw e, fs)
  | (Normal None, fs) => (Normal [], fs)
  | (Normal (Some v), fs) => cue w config v fs
  end.

(** ** Files, packs and worlds of the scenarios *)

(** The category [complete] with the two sounds [a.mp3] and [b.mp3]. *)
Definition two_sounds (la lb : string) : CategoryEntry :=
  {| sounds := [ {| file := "a.mp3"; line := la |};
                 {| file := "b.mp3"; line := lb |} ] |}.

Definition two_sound_pack : PackManifest :=
  {| name := "peon"; display_name := "Orc Peon";
     manifest_categories := {[ "complete" := two_sounds "Work, work." "Okie dokie." ]} |}.

(** The category [complete] holding the file [a.mp3] twice. *)
Definition repeated_sound_pack : PackManifest :=
  {| name := "peon"; display_name := "Orc Peon";
     manifest_categories :=
       {[ "complete" := {| sounds := [ {| file := "a.mp3"; line := "Work, work." |};
                                       {| file := "a.mp3"; line := "Ready to work?" |} ] |} ]} |}.

(** The default configuration with a rotation. *)
Definition with_rotation (rotation : list string) : PeonConfig := {|
  active_pack := active_pack DEFAULT_CONFIG;
  volume := volume DEFAULT_CONFIG;
  paused := paused DEFAULT_CONFIG;
  categories := categories DEFAULT_CONFIG;
  annoyed_threshold := annoyed_threshold DEFAULT_CONFIG;
  annoyed_window_seconds := annoyed_window_seconds DEFAULT_CONFIG;
  pack_rotation := rotation
|}.

(** The runtime directory before the first run. *)
Definition no_files : Files := {| config_json := None; state_json := None |}.

(** A [config.json] that is not JSON, next to a [state.json] that holds
    only [last_played]. *)
Definition damaged_files : Files := {|
  config_json := Some Malformed;
  state_json := Some (Text (JObject {|
    raw_last_played := Some {[ "complete" := "a.mp3" ]};
    raw_prompt_timestamps := None;
    raw_session_packs := None |}))
|}.

(** A [config.json] that only sets [paused]. *)
Definition paused_files : Files := {|
  config_json := Some (Text (JObject {|
    raw_active_pack := None; raw_volume := None; raw_paused := Some true;
    raw_categories := None; raw_annoyed_threshold := None;
    raw_annoyed_window_seconds := None; raw_pack_rotation := None |}));
  state_json := None
|}.

(** [state.prompt_timestamps[sessionID] ?? []] of the state on file. *)
Definition stored_timestamps (sid : string) (fs : Files) : list Q :=
  default [] (prompt_timestamps (loadState fs).1 !! sid).

(** The category the switch resolves for a user message at time [t], and
    the files it leaves. *)
Definition observe_at (t : Q) (config : PeonConfig) (sid : string) (fs : Files)
  : option SoundCategory * Files :=
  match switch_event t config (message_updated "user" sid) fs with
  | (Normal (Some v), fs') => (category v, fs')
  | (_, fs') => (None, fs')
  end.

(** User messages of session [s] at the seconds 0, 1, 2 and 13 under the
    default configuration (window 10, threshold 3), from no files. *)
Definition burst : list (option SoundCategory) * Files :=
  let '(c1, fs) := observe_at 0 DEFAULT_CONFIG "s" no_files in
  let '(c2, fs) := observe_at 1 DEFAULT_CONFIG "s" fs in
  let '(c3, fs) := observe_at 2 DEFAULT_CONFIG "s" fs in
  let '(c4, fs) := observe_at 13 DEFAULT_CONFIG "s" fs in
  ([c1; c2; c3; c4], fs).

(** The default configuration with the category [annoyed] switched off. *)
Definition annoyed_disabled : PeonConfig := {|
  active_pack := active_pack DEFAULT_CONFIG;
  volume := volume DEFAULT_CONFIG;
  paused := paused DEFAULT_CONFIG;
  categories := <["annoyed" := false]> (categories DEFAULT_CONFIG);
  annoyed_threshold := annoyed_threshold DEFAULT_CONFIG;
  annoyed_window_seconds := annoyed_window_seconds DEFAULT_CONFIG;
  pack_rotation := pack_rotation DEFAULT_CONFIG
|}.

(** A state file with the user messages of session [s] at seconds 0 and 1. *)
Definition two_prompts : Files := {|
  config_json := Some (stringify_config annoyed_disabled);
  state_json := Some (stringify_state (set_prompt_timestamps EMPTY_STATE "s" [0; 1]%Q))
|}.

(** A [config.json] that switches the category [error] off. *)
Definition error_disabled_files : Files := {|
  config_json := Some (Text (JObject {|
    raw_active_pack := None; raw_volume := None; raw_paused := None;
    raw_categories := Some {[ "error" := false ]};
    raw_annoyed_threshold := None; raw_annoyed_window_seconds := None;
    raw_pack_rotation := None |}));
  state_json := Some (stringify_state (set_session_pack EMPTY_STATE "s" "peon"))
|}.

(** A world in which the pack [peon] would play and notify. *)
Definition loud_world : World := {|
  now := 0; rnd_pack := draw_0_of_1; rnd_sound := draw_0_of_1;
  packs := {[ "peon" := two_sound_pack ]};
  sound_exists := λ _ _, true;
  foreground := Some "Safari"
|}.

(** A world whose pack [peon] is [repeated_sound_pack]. *)
Definition repeating_world : World := {|
  now := 0; rnd_pack := draw_0_of_1; rnd_sound := draw_0_of_1;
  packs := {[ "peon" := repeated_sound_pack ]};
  sound_exists := λ _ _, true;
  foreground := Some "kitty"
|}.

(** A world with no pack installed. *)
Definition quiet_world (t : Q) : World := {|
  now := t; rnd_pack := draw_0_of_1; rnd_sound := draw_0_of_1;
  packs := ∅; sound_exists := λ _ _, true; foreground := None
|}.

(** ** The tools and the list of packs *)

(** [config.active_pack = pack], [config.paused = flag] and
    [config.volume = level] on the record [loadConfig] returned. *)
Definition set_active_pack (config : PeonConfig) (pack : string) : PeonConfig := {|
  active_pack := pack;
  volume := volume config;
  paused := paused config;
  categories := categories config;
  annoyed_threshold := annoyed_threshold config;
  annoyed_window_seconds := annoyed_window_seconds config;
  pack_rotation := pack_rotation config
|}.

Definition set_paused (config : PeonConfig) (flag : bool) : PeonConfig := {|
  active_pack := active_pack config;
  volume := volume config;
  paused := flag;
  categories := categories config;
  annoyed_threshold := annoyed_threshold config;
  annoyed_window_seconds := annoyed_window_seconds config;
  pack_rotation := pack_rotation config
|}.

Definition set_volume (config : PeonConfig) (level : Q) : PeonConfig := {|
  active_pack := active_pack config;
  volume := level;
  paused := paused config;
  categories := categories config;
  annoyed_threshold := annoyed_threshold config;
  annoyed_window_seconds := annoyed_window_seconds config;
  pack_rotation := pack_rotation config
|}.

(** An entry of [readdirSync(packsDir, { withFileTypes: true })]. *)
Record Dirent := {
  dirent_name : string;
  isDirectory : bool
}.

(** An element of the list of packs: [{ name, displayName }]. *)
Record PackInfo := {
  info_name : string;
  displayName : string
}.

(** The [action] of [peon_toggle]. *)
Inductive ToggleAction :=
| toggle
| pause
| resume
| status.

(** The line feed and the double quote of the replies. *)
Definition LF : string := String (Ascii.ascii_of_nat 10) EmptyString.
Definition DQUOTE : string := String (Ascii.ascii_of_nat 34) EmptyString.

Section tools.
(** What the host provides: [String.prototype.localeCompare], and the
    text of a number in a template literal. *)
Context (localeCompare : string → string → Z) (number_text : Q → string).

(** [a.name.localeCompare(b.name) <= 0]: [a] may stay before [b]. *)
Definition name_before (a b : PackInfo) : Prop :=
  (localeCompare (info_name a) (info_name b) ≤ 0)%Z.

#[local] Instance name_before_dec (a b : PackInfo) : Decision (name_before a b).
Proof. unfold name_before. apply _. Defined.

(** [packsDir] is the listing of the directory [packs], [None] when the
    directory does not exist. *)
Definition listAvailablePacks (w : World) (packsDir : option (list Dirent))
  : list PackInfo :=
  match packsDir with
  | None => []
  | Some entries =>
    merge_sort name_before
      (filter (λ p, loadManifest w (info_name p) ≠ None)
         (map (λ d, {| info_name := dirent_name d;
                       displayName :=
                         match loadManifest w (dirent_name d) with
                         | Some manifest => display_name manifest
                         | None => dirent_name d
                         end |})
              (filter (λ d, isDirectory d = true) entries)))
  end.

(** [packs.find((p) => p.name === pack)] *)
Definition find_pack (packs : list PackInfo) (pack : string) : option PackInfo :=
  List.find (λ p, bool_decide (info_name p = pack)) packs.

(** The tool [peon_pack]; [pack] is [args.pack]. *)
Definition peon_pack (w : World) (packsDir : option (list Dirent))
    (pack : option string) : IO string := λ fs,
  let packs := listAvailablePacks w packsDir in
  let '(config, fs) := loadConfig fs in
  match pack with
  | Some wanted =>
    if truthy wanted then
      match find_pack packs wanted with
      | None =>
        let names := String.concat ", " (map info_name packs) in
        ("Pack " +:+ DQUOTE +:+ wanted +:+ DQUOTE +:+ " not found. Available: "
           +:+ names, fs)
      | Some target =>
        let config := set_active_pack config (info_name target) in
        let '(_, fs) := saveConfig config fs in
        ("Switched to " +:+ info_name target +:+ " (" +:+ displayName target +:+ ")",
         fs)
      end
    else
      (* the empty string is falsy: the packs are listed *)
      let lines :=
        map (λ p, "  " +:+ info_name p
                  +:+ (if bool_decide (info_name p = active_pack config)
                       then " *" else "")
                  +:+ " — " +:+ displayName p) packs in
      ("Available sound packs (* = active):" +:+ LF +:+ String.concat LF lines, fs)
  | None =>
    let lines :=
      map (λ p, "  " +:+ info_name p
                +:+ (if bool_decide (info_name p = active_pack config)
                     then " *" else "")
                +:+ " — " +:+ displayName p) packs in
    ("Available sound packs (* = active):" +:+ LF +:+ String.concat LF lines, fs)
  end.

(** The tool [peon_toggle]; [action] is [args.action]. *)
Definition peon_toggle (action : option ToggleAction) : IO string := λ fs,
  let '(config, fs) := loadConfig fs in
  match default toggle action with
  | toggle =>
    let config := set_paused config (negb (paused config)) in
    let '(_, fs) := saveConfig config fs in
    (if paused config then "peon-ping: sounds paused"
     else "peon-ping: sounds resumed", fs)
  | pause =>
    let config := set_paused config true in
    let '(_, fs) := saveConfig config fs in
    ("peon-ping: sounds paused", fs)
  | resume =>
    let config := set_paused config false in
    let '(_, fs) := saveConfig config fs in
    ("peon-ping: sounds resumed", fs)
  | status =>
    (if paused config then "peon-ping: paused"
     else "peon-ping: active (pack: " +:+ active_pack config +:+ ", volume: "
          +:+ number_text (volume config) +:+ ")", fs)
  end.

(** The tool [peon_volume]; [level] is [args.level], which the schema of
    the tool keeps between 0 and 1. *)
Definition peon_volume (level : Q) : IO string := λ fs,
  let '(config, fs) := loadConfig fs in
  let config := set_volume config level in
  let '(_, fs) := saveConfig config fs in
  ("peon-ping: volume set to " +:+ number_text level, fs).

End tools.

(** ** Further packs, files and worlds *)

(** A pack whose category [greeting] has one sound. *)
Definition greeting_pack : PackManifest :=
  {| name := "peon"; display_name := "Orc Peon";
     manifest_categories :=
       {[ "greeting" := {| sounds := [ {| file := "ready.mp3"; line := "Ready to work?" |} ] |} ]} |}.

(** The default configuration with the threshold 1. *)
Definition hair_trigger : PeonConfig := {|
  active_pack := active_pack DEFAULT_CONFIG;
  volume := volume DEFAULT_CONFIG;
  paused := paused DEFAULT_CONFIG;
  categories := categories DEFAULT_CONFIG;
  annoyed_threshold := 1;
  annoyed_window_seconds := annoyed_window_seconds DEFAULT_CONFIG;
  pack_rotation := pack_rotation DEFAULT_CONFIG
|}.

(** The session id the [switch] sets for an event it does not ignore. *)
Definition session_of (ev : Event) : option string :=
  match ev with
  | session_created info_id => Some info_id
  | session_idle sid => Some sid
  | session_error sid => Some (default "" sid)
  | permission_asked sid => Some sid
  | message_updated role sid => if String.eqb role "user" then Some sid else None
  | other_event _ => None
  end.

(** The only category the [switch] can set for an event. *)
Definition category_of (ev : Event) : option SoundCategory :=
  match ev with
  | session_created _ => Some greeting
  | session_idle _ => Some complete
  | session_error _ => Some error
  | permission_asked _ => Some permission
  | message_updated role _ => if String.eqb role "user" then Some annoyed else None
  | other_event _ => None
  end.

(** A [config.json] with the rotation of the packs [peon] and [peasant]. *)
Definition rotation_files : Files := {|
  config_json := Some (stringify_config (with_rotation ["peon"; "peasant"]));
  state_json := None
|}.

(** Two worlds with both packs installed; the first draws index 0 for the
    pack, the second index 1. *)
Definition first_world : World := {|
  now := 0; rnd_pack := draw_0_of_2; rnd_sound := draw_0_of_2;
  packs := {[ "peon" := two_sound_pack; "peasant" := two_sound_pack ]};
  sound_exists := λ _ _, true;
  foreground := Some "Terminal"
|}.

Definition second_world : World := {|
  now := 5; rnd_pack := draw_1_of_2; rnd_sound := draw_0_of_1;
  packs := {[ "peon" := two_sound_pack; "peasant" := two_sound_pack ]};
  sound_exists := λ _ _, true;
  foreground := Some "Terminal"
|}.

(** The directory [packs] with the pack [peon], a directory without
    manifest and a plain file. *)
Definition some_packs_dir : option (list Dirent) :=
  Some [ {| dirent_name := "zug"; isDirectory := true |};
         {| dirent_name := "peon"; isDirectory := true |};
         {| dirent_name := "README.md"; isDirectory := false |} ].

(** A [localeCompare] that compares byte by byte, and a number text. *)
Definition byte_compare (a b : string) : Z :=
  match String.compare a b with
  | Lt => -1
  | Eq => 0
  | Gt => 1
  end.

Definition half_text (q : Q) : string := "0.5".

(** [pack] names a directory of [packs] whose manifest loads. *)
Definition installed (w : World) (packsDir : option (list Dirent)) (pack : string)
  : Prop :=
  ∃ entries d, packsDir = Some entries ∧ d ∈ entries ∧
               dirent_name d = pack ∧ isDirectory d = true ∧
               loadManifest w pack ≠ None.

(** * Properties *)

(** ** Random draws *)

Lemma random_index_lt (rnd : Random) (n : nat) :
  (0 < n)%nat → (random_index rnd n < n)%nat.
Proof.
  intros Hn. unfold random_index.
  set (x := (rnd_value rnd * inject_Z (Z.of_nat n))%Q).
  assert (Hpos : (0 < inject_Z (Z.of_nat n))%Q).
  { change 0%Q with (inject_Z 0). rewrite <- Zlt_Qlt. lia. }
  assert (Hx : (x < inject_Z (Z.of_nat n))%Q).
  { unfold x. rewrite <- (Qmult_1_l (inject_Z (Z.of_nat n))) at 2.
    apply Qmult_lt_r; [exact Hpos | apply rnd_hi]. }
  assert (H0 : (0 <= x)%Q).
  { unfold x. apply Qmult_le_0_compat; [apply rnd_lo | apply Qlt_le_weak, Hpos]. }
  assert (Hfl : (Qfloor x < Z.of_nat n)%Z).
  { rewrite Zlt_Qlt. eapply Qle_lt_trans; [apply Qfloor_le | exact Hx]. }
  assert (Hge : (0 <= Qfloor x)%Z).
  { change 0%Z with (Qfloor 0). apply Qfloor_resp_le, H0. }
  lia.
Qed.

(** Every index of a non-empty array is the outcome of some draw. *)
Lemma random_index_draw (k n : nat) (H : (k < n)%nat) :
  random_index (draw k n H) n = k.
Proof.
  unfold random_index, draw; simpl. unfold Qfloor, Qmult; simpl.
  rewrite Pos.mul_1_r.
  assert (Hn : Z.pos (Pos.of_nat n) = Z.of_nat n).
  { rewrite <- positive_nat_Z, Nat2Pos.id by lia. reflexivity. }
  rewrite Hn, Z.div_mul by lia. lia.
Qed.

(** [arr[Math.floor(Math.random() * arr.length)]] is an element of a
    non-empty array. *)
Lemma random_lookup_some {A} (rnd : Random) (l : list A) :
  l ≠ [] → ∃ x, l !! random_index rnd (length l) = Some x ∧ x ∈ l.
Proof.
  intros Hl.
  assert (Hlen : (0 < length l)%nat) by (destruct l; [done | simpl; lia]).
  destruct (lookup_lt_is_Some_2 l _ (random_index_lt rnd _ Hlen)) as [x Hx].
  exists x. split; [exact Hx |]. apply list_elem_of_lookup. eauto.
Qed.

Lemma random_lookup_nil {A} (rnd : Random) :
  ([] : list A) !! random_index rnd 0 = None.
Proof. apply lookup_nil. Qed.

(** ** The sound selector *)

Section pickSound_facts.
Context (rnd : Random) (manifest : PackManifest) (category : SoundCategory)
        (state : PeonState).

Lemma pickSound_absent :
  manifest_categories manifest !! category_key category = None →
  pickSound rnd manifest category state = Normal (None, state).
Proof. intros H. unfold pickSound. by rewrite H. Qed.

Lemma pickSound_no_sounds cat :
  manifest_categories manifest !! category_key category = Some cat →
  sounds cat = [] →
  pickSound rnd manifest category state = Normal (None, state).
Proof. intros H Hs. unfold pickSound. by rewrite H, Hs. Qed.

Lemma pickSound_unfold cat :
  manifest_categories manifest !! category_key category = Some cat →
  sounds cat ≠ [] →
  pickSound rnd manifest category state =
    match candidates_of category state cat
            !! random_index rnd (length (candidates_of category state cat)) with
    | None => Throw TypeError
    | Some pick =>
      Normal (Some pick, set_last_played state (category_key category) (file pick))
    end.
Proof.
  intros H Hs. unfold pickSound. rewrite H.
  destruct (sounds cat) eqn:E; [done | reflexivity].
Qed.

(** With a candidate left, a sound of the category is returned and
    recorded. *)
Lemma pickSound_some cat :
  manifest_categories manifest !! category_key category = Some cat →
  candidates_of category state cat ≠ [] →
  ∃ pick, pick ∈ candidates_of category state cat ∧
    pickSound rnd manifest category state =
      Normal (Some pick, set_last_played state (category_key category) (file pick)).
Proof.
  intros H Hc.
  assert (Hs : sounds cat ≠ []).
  { intros E. apply Hc. unfold candidates_of. rewrite E. reflexivity. }
  rewrite (pickSound_unfold cat H Hs).
  destruct (random_lookup_some rnd _ Hc) as (x & Hx & Hin).
  exists x. by rewrite Hx.
Qed.

(** Without a candidate, the selector throws. *)
Lemma pickSound_throw cat :
  manifest_categories manifest !! category_key category = Some cat →
  sounds cat ≠ [] →
  candidates_of category state cat = [] →
  pickSound rnd manifest category state = Throw TypeError.
Proof.
  intros H Hs Hc. rewrite (pickSound_unfold cat H Hs), Hc. reflexivity.
Qed.

(** What a returned sound is. *)
Lemma pickSound_inv cat pick state' :
  manifest_categories manifest !! category_key category = Some cat →
  pickSound rnd manifest category state = Normal (Some pick, state') →
  pick ∈ candidates_of category state cat ∧
  state' = set_last_played state (category_key category) (file pick).
Proof.
  intros H Hp.
  destruct (decide (sounds cat = [])) as [E|Hs].
  { rewrite (pickSound_no_sounds cat H E) in Hp. discriminate. }
  rewrite (pickSound_unfold cat H Hs) in Hp.
  destruct (candidates_of category state cat !! _) as [x|] eqn:Hx; [|discriminate].
  injection Hp as -> <-. split; [|reflexivity].
  apply list_elem_of_lookup. eauto.
Qed.

End pickSound_facts.

Lemma candidates_of_sounds category state cat pick :
  pick ∈ candidates_of category state cat → pick ∈ sounds cat.
Proof.
  unfold candidates_of. case_decide; [done |].
  unfold not_last. rewrite list_elem_of_filter. tauto.
Qed.

Lemma candidates_of_not_last category state cat pick :
  (2 ≤ length (sounds cat))%nat →
  pick ∈ candidates_of category state cat →
  file pick ≠ default "" (last_played state !! category_key category).
Proof.
  intros Hlen. unfold candidates_of. case_decide; [lia |].
  unfold not_last. rewrite list_elem_of_filter. tauto.
Qed.

(** C1. Two consecutive selections for a category with at least two sounds,
    the second on the state the first left, never return the same file id:
    whatever the two draws, if both calls return a sound, the file ids
    differ. When the category holds exactly [a.mp3] and [b.mp3] and nothing
    was played yet, the first call returns one of the two and records it in
    [last_played], and the second call returns the other one. *)
Theorem pickSound_never_repeats
    (r1 r2 : Random) (manifest : PackManifest) (category : SoundCategory)
    (state : PeonState) (cat : CategoryEntry) :
  manifest_categories manifest !! category_key category = Some cat →
  (2 ≤ length (sounds cat))%nat →
  (∀ e1 st1 e2 st2,
     pickSound r1 manifest category state = Normal (Some e1, st1) →
     pickSound r2 manifest category st1 = Normal (Some e2, st2) →
     file e1 ≠ file e2)
  ∧
  (∀ la lb,
     cat = two_sounds la lb →
     last_played state !! category_key category = None →
     ∃ e1 e2 st1 st2,
       pickSound r1 manifest category state = Normal (Some e1, st1) ∧
       last_played st1 !! category_key category = Some (file e1) ∧
       pickSound r2 manifest category st1 = Normal (Some e2, st2) ∧
       ((file e1 = "a.mp3" ∧ file e2 = "b.mp3") ∨
        (file e1 = "b.mp3" ∧ file e2 = "a.mp3"))).
Proof.
  intros Hcat Hlen. split.
  - intros e1 st1 e2 st2 H1 H2.
    destruct (pickSound_inv _ _ _ _ cat e1 st1 Hcat H1) as [_ ->].
    destruct (pickSound_inv _ _ _ _ cat e2 st2 Hcat H2) as [Hin _].
    apply (candidates_of_not_last _ _ _ _ Hlen) in Hin.
    simpl in Hin. rewrite lookup_insert_eq in Hin. simpl in Hin. congruence.
  - intros la lb -> Hnone.
    assert (Hc1 : candidates_of category state (two_sounds la lb)
                  = sounds (two_sounds la lb)).
    { unfold candidates_of. rewrite Hnone. reflexivity. }
    destruct (pickSound_some r1 manifest category state _ Hcat) as (e1 & Hin1 & Hp1).
    { rewrite Hc1. discriminate. }
    rewrite Hc1 in Hin1.
    set (st1 := set_last_played state (category_key category) (file e1)) in *.
    assert (Hlast : last_played st1 !! category_key category = Some (file e1))
      by apply lookup_insert_eq.
    assert (Hc2 : candidates_of category st1 (two_sounds la lb)
                  = not_last (file e1) (sounds (two_sounds la lb))).
    { unfold candidates_of. rewrite Hlast. reflexivity. }
    destruct (pickSound_some r2 manifest category st1 _ Hcat) as (e2 & Hin2 & Hp2).
    { rewrite Hc2. simpl in Hin1. set_unfold in Hin1.
      destruct Hin1 as [-> | [-> | []]]; discriminate. }
    rewrite Hc2 in Hin2.
    exists e1, e2, st1, (set_last_played st1 (category_key category) (file e2)).
    repeat split; [exact Hp1 | exact Hlast | exact Hp2 |].
    simpl in Hin1. set_unfold in Hin1.
    destruct Hin1 as [-> | [-> | []]]; simpl in Hin2;
      apply list_elem_of_filter in Hin2 as [Hne Hin2]; set_unfold in Hin2;
      destruct Hin2 as [-> | [-> | []]]; simpl in *; try congruence; auto.
Qed.

Lemma pickSound_never_repeats_witness :
  ∃ e1 e2 st1 st2,
    pickSound draw_0_of_2 two_sound_pack complete EMPTY_STATE
      = Normal (Some e1, st1) ∧
    last_played st1 !! "complete" = Some (file e1) ∧
    pickSound draw_0_of_1 two_sound_pack complete st1
      = Normal (Some e2, st2) ∧
    ((file e1 = "a.mp3" ∧ file e2 = "b.mp3") ∨
     (file e1 = "b.mp3" ∧ file e2 = "a.mp3")).
Proof.
  refine (proj2 (pickSound_never_repeats draw_0_of_2 draw_0_of_1
            two_sound_pack complete EMPTY_STATE
            (two_sounds "Work, work." "Okie dokie.") _ _) _ _ _ _).
  - reflexivity.
  - simpl; lia.
  - reflexivity.
  - reflexivity.
Defined.

(** C3. The selector does not always complete: on a category with two
    entries of the one file [a.mp3], once [a.mp3] was played, every
    candidate is filtered out and [pick.file] throws, whatever the draw.
    The first selection on the empty state returns [a.mp3], so the state
    of the second one is reached by the code itself, and the exception
    leaves the handler: of two idle events in a row, the first plays
    [a.mp3] and the second throws. *)
Theorem pickSound_throws_when_all_filtered (r1 r2 : Random) :
  (∃ e1 st1,
     pickSound r1 repeated_sound_pack complete EMPTY_STATE = Normal (Some e1, st1) ∧
     file e1 = "a.mp3" ∧
     last_played st1 !! "complete" = Some "a.mp3" ∧
     pickSound r2 repeated_sound_pack complete st1 = Throw TypeError) ∧
  (event repeating_world (session_idle "s") no_files).1
    = Normal [Afplay (1 # 2) "peon" "a.mp3"] ∧
  (event repeating_world (session_idle "s")
     (event repeating_world (session_idle "s") no_files).2).1 = Throw TypeError.
Proof.
  split; [| split; reflexivity].
  set (cat := {| sounds := [ {| file := "a.mp3"; line := "Work, work." |};
                             {| file := "a.mp3"; line := "Ready to work?" |} ] |}).
  assert (Hcat : manifest_categories repeated_sound_pack !! category_key complete
                 = Some cat) by reflexivity.
  destruct (pickSound_some r1 repeated_sound_pack complete EMPTY_STATE cat Hcat)
    as (e1 & Hin & Hp); [discriminate |].
  assert (Hf : file e1 = "a.mp3").
  { apply candidates_of_sounds in Hin. simpl in Hin. set_unfold in Hin.
    destruct Hin as [-> | [-> | []]]; reflexivity. }
  exists e1, (set_last_played EMPTY_STATE (category_key complete) (file e1)).
  repeat split; [exact Hp | exact Hf | by rewrite Hf |].
  apply (pickSound_throw r2 repeated_sound_pack complete _ cat Hcat); [discriminate |].
  rewrite Hf. reflexivity.
Qed.

(** ** The pack resolver *)

Lemma truthy_nonempty (s : string) : s ≠ "" → truthy s = true.
Proof. intros H. unfold truthy. apply negb_true_iff, String.eqb_neq, H. Qed.

Lemma includes_elem (l : list string) (x : string) : includes l x = true ↔ x ∈ l.
Proof. unfold includes. apply bool_decide_eq_true. Qed.

Lemma nth_elem {A} (l : list A) (i : nat) (d : A) :
  (i < length l)%nat → nth i l d ∈ l.
Proof. intros H. apply list_elem_of_In, nth_In, H. Qed.

Lemma get_property_own {V} (obj : gmap string V) (key : string) (v : V) :
  obj !! key = Some v → get_property obj key = Own v.
Proof. intros H. unfold get_property. by rewrite H. Qed.

Lemma get_property_plain {V} (obj : gmap string V) (key : string) :
  obj !! key = None → key ∉ Object_prototype_names →
  get_property obj key = Undefined.
Proof.
  intros H Hk. unfold get_property. rewrite H. by rewrite bool_decide_eq_false_2.
Qed.

Lemma get_property_own_inv {V} (obj : gmap string V) (key : string) (v : V) :
  get_property obj key = Own v → obj !! key = Some v.
Proof.
  unfold get_property. destruct (obj !! key); [congruence |].
  by case_bool_decide.
Qed.

Lemma assign_session_pack_cases (state : PeonState) (sid pack : string) :
  assign_session_pack state sid pack = state ∨
  assign_session_pack state sid pack = set_session_pack state sid pack.
Proof. unfold assign_session_pack. destruct (_ && _); auto. Qed.

Lemma assign_session_pack_recorded (state : PeonState) (sid pack : string) :
  sid ≠ "__proto__" ∨ session_packs state !! sid ≠ None →
  assign_session_pack state sid pack = set_session_pack state sid pack.
Proof.
  intros H. unfold assign_session_pack.
  destruct (bool_decide (sid = "__proto__")) eqn:E1; [| done].
  destruct (bool_decide (session_packs state !! sid = None)) eqn:E2; [| done].
  apply bool_decide_eq_true in E1, E2. by destruct H.
Qed.

Section resolveActivePack_facts.
Context (rnd : Random) (config : PeonConfig) (state : PeonState)
        (sessionID : string).

Lemma resolveActivePack_no_rotation :
  pack_rotation config = [] →
  resolveActivePack rnd config state sessionID = (active_pack config, state).
Proof. intros H. unfold resolveActivePack. by rewrite H. Qed.

(** A recorded, non-empty pack name that is in the rotation is kept. *)
Lemma resolveActivePack_sticky existing :
  session_packs state !! sessionID = Some existing →
  existing ≠ "" →
  existing ∈ pack_rotation config →
  resolveActivePack rnd config state sessionID = (existing, state).
Proof.
  intros Hs Hne Hin. unfold resolveActivePack.
  destruct (pack_rotation config) as [|first rest] eqn:E.
  { by apply not_elem_of_nil in Hin. }
  rewrite (get_property_own _ _ _ Hs), (truthy_nonempty _ Hne).
  by rewrite (proj2 (includes_elem _ _) Hin).
Qed.

(** The outcome of the resolver under rotation: the recorded pack, with
    the state as it was, or a pack of the rotation, assigned to the
    session. *)
Lemma resolveActivePack_rotation :
  pack_rotation config ≠ [] →
  ∃ pack, pack ∈ pack_rotation config ∧
    (resolveActivePack rnd config state sessionID = (pack, state) ∧
       session_packs state !! sessionID = Some pack
     ∨ resolveActivePack rnd config state sessionID
       = (pack, assign_session_pack state sessionID pack)).
Proof.
  intros Hne. unfold resolveActivePack.
  destruct (pack_rotation config) as [|first rest] eqn:E; [done |].
  set (picked := nth _ _ _).
  assert (Hpicked : picked ∈ first :: rest).
  { apply nth_elem, random_index_lt. simpl. lia. }
  destruct (get_property (session_packs state) sessionID) as [existing| |] eqn:Hs.
  - apply get_property_own_inv in Hs.
    destruct (truthy existing && includes (first :: rest) existing) eqn:Hb.
    + apply andb_true_iff in Hb as [_ Hin%includes_elem].
      exists existing. split; [exact Hin | by left].
    + exists picked. split; [exact Hpicked | by right].
  - exists picked. split; [exact Hpicked | by right].
  - exists picked. split; [exact Hpicked | by right].
Qed.

End resolveActivePack_facts.

Lemma resolveActivePack_member rnd config state sid :
  pack_rotation config ≠ [] →
  (resolveActivePack rnd config state sid).1 ∈ pack_rotation config.
Proof.
  intros H.
  by destruct (resolveActivePack_rotation rnd config state sid H)
    as (pack & Hin & [[-> Hs] | ->]).
Qed.

(** A recorded pack of the rotation is what the next call finds, after
    any call under a rotation for a session id other than [__proto__]. *)
Lemma resolveActivePack_records rnd config state sid :
  pack_rotation config ≠ [] →
  sid ≠ "__proto__" →
  (resolveActivePack rnd config state sid).1 ∈ pack_rotation config ∧
  session_packs (resolveActivePack rnd config state sid).2 !! sid
  = Some (resolveActivePack rnd config state sid).1.
Proof.
  intros H Hsid.
  destruct (resolveActivePack_rotation rnd config state sid H)
    as (pack & Hin & [[-> Hs] | ->]); simpl; [done |].
  split; [exact Hin |].
  rewrite assign_session_pack_recorded by auto. apply lookup_insert_eq.
Qed.

(** C4, as stated, fails when the recorded pack name is the empty string:
    under the rotation [["", "a"]], with [""] recorded for session [s] (as
    a first call that draws index 0 records it), the test [existing && ...]
    is falsy, the resolver draws again and, on index 1, returns ["a"] and
    overwrites the entry. *)
Lemma sticky_fails_for_empty_name :
  ¬ (∀ (rnd : Random) (config : PeonConfig) (state : PeonState) (sid pack : string),
       pack_rotation config ≠ [] →
       session_packs state !! sid = Some pack →
       pack ∈ pack_rotation config →
       (resolveActivePack rnd config state sid).1 = pack ∧
       session_packs (resolveActivePack rnd config state sid).2 !! sid = Some pack).
Proof.
  intros H.
  assert (Hfirst : resolveActivePack draw_0_of_2 (with_rotation [""; "a"]) EMPTY_STATE "s"
                   = ("", set_session_pack EMPTY_STATE "s" "")) by reflexivity.
  destruct (H draw_1_of_2 (with_rotation [""; "a"])
              (set_session_pack EMPTY_STATE "s" "") "s" "") as [Hpack _].
  - discriminate.
  - reflexivity.
  - apply list_elem_of_here.
  - discriminate Hpack.
Qed.

(** C4, amended. Under a rotation, once [session_packs[s]] holds a
    non-empty pack name that is in the rotation, a call for [s] returns
    that name and leaves the state as it was, whatever the draw; so does
    every further call. In particular two calls in a row for one session
    under the rotation [["a", "b"]] return the same pack, when the session
    id is not [__proto__] (for which the assignment records nothing). *)
Theorem resolveActivePack_sticky_nonempty
    (config : PeonConfig) (state : PeonState) (sid pack : string) :
  pack_rotation config ≠ [] →
  session_packs state !! sid = Some pack →
  pack ≠ "" →
  pack ∈ pack_rotation config →
  (∀ rnd, resolveActivePack rnd config state sid = (pack, state)) ∧
  (∀ rnds, resolve_calls rnds config state sid
           = (replicate (length rnds) pack, state)) ∧
  (∀ r1 r2 st,
     sid ≠ "__proto__" →
     resolveActivePack r2 (with_rotation ["a"; "b"])
       (resolveActivePack r1 (with_rotation ["a"; "b"]) st sid).2 sid
     = resolveActivePack r1 (with_rotation ["a"; "b"]) st sid).
Proof.
  intros Hrot Hs Hne Hin.
  assert (Hone : ∀ rnd, resolveActivePack rnd config state sid = (pack, state)).
  { intros rnd. by apply resolveActivePack_sticky. }
  split; [exact Hone |]. split.
  - intros rnds. induction rnds as [|rnd rest IH]; [reflexivity |].
    simpl. by rewrite Hone, IH.
  - intros r1 r2 st Hsid.
    destruct (resolveActivePack_records r1 (with_rotation ["a"; "b"]) st sid)
      as [Hmem Hrec]; [discriminate | exact Hsid |].
    destruct (resolveActivePack r1 (with_rotation ["a"; "b"]) st sid)
      as [p1 st1]. simpl in *.
    apply resolveActivePack_sticky; [exact Hrec | | exact Hmem].
    set_unfold in Hmem. destruct Hmem as [-> | [-> | []]]; discriminate.
Qed.

Lemma resolveActivePack_sticky_nonempty_witness :
  resolveActivePack draw_1_of_2 (with_rotation ["a"; "b"])
    (set_session_pack EMPTY_STATE "s" "a") "s"
  = ("a", set_session_pack EMPTY_STATE "s" "a") ∧
  resolveActivePack draw_0_of_2 (with_rotation ["a"; "b"])
    (resolveActivePack draw_1_of_2 (with_rotation ["a"; "b"]) EMPTY_STATE "s").2 "s"
  = resolveActivePack draw_1_of_2 (with_rotation ["a"; "b"]) EMPTY_STATE "s".
Proof.
  destruct (resolveActivePack_sticky_nonempty (with_rotation ["a"; "b"])
              (set_session_pack EMPTY_STATE "s" "a") "s" "a"
              ltac:(discriminate) eq_refl ltac:(discriminate)
              ltac:(apply list_elem_of_here)) as (H1 & _ & H3).
  split; [apply H1 | apply H3; discriminate].
Defined.

(** C5. Without a rotation the resolver returns [active_pack], whatever
    [session_packs] holds for the session; with a rotation it returns a
    member of the rotation, so it returns [active_pack] only when that is
    a member of the rotation. *)
Theorem resolveActivePack_result
    (rnd : Random) (config : PeonConfig) (state : PeonState) (sid : string) :
  (pack_rotation config = [] →
     (resolveActivePack rnd config state sid).1 = active_pack config) ∧
  (pack_rotation config ≠ [] →
     (resolveActivePack rnd config state sid).1 ∈ pack_rotation config ∧
     ((resolveActivePack rnd config state sid).1 = active_pack config →
        active_pack config ∈ pack_rotation config)).
Proof.
  split.
  - intros H. by rewrite resolveActivePack_no_rotation.
  - intros H.
    assert (Hin : (resolveActivePack rnd config state sid).1 ∈ pack_rotation config).
    { destruct (resolveActivePack_rotation rnd config state sid H)
        as (pack & Hin & [[-> _] | ->]); exact Hin. }
    split; [exact Hin |]. intros <-. exact Hin.
Qed.

Lemma resolveActivePack_result_witness :
  (resolveActivePack draw_0_of_1 DEFAULT_CONFIG
     (set_session_pack EMPTY_STATE "s" "peasant") "s").1 = "peon" ∧
  (resolveActivePack draw_1_of_2 (with_rotation ["a"; "b"])
     EMPTY_STATE "s").1 ∈ ["a"; "b"].
Proof.
  split.
  - apply (proj1 (resolveActivePack_result draw_0_of_1 DEFAULT_CONFIG
                    (set_session_pack EMPTY_STATE "s" "peasant") "s")).
    reflexivity.
  - apply (proj2 (resolveActivePack_result draw_1_of_2
                    (with_rotation ["a"; "b"]) EMPTY_STATE "s")).
    discriminate.
Defined.

(** C9. The resolver writes at most one entry of the state. Without a
    rotation the state is returned as it was, a recorded assignment
    included. With a rotation [last_played], [prompt_timestamps] and the
    [session_packs] entry of every other session are as before. *)
Theorem resolveActivePack_frame
    (rnd : Random) (config : PeonConfig) (state : PeonState) (sid : string) :
  (pack_rotation config = [] →
     (resolveActivePack rnd config state sid).2 = state) ∧
  last_played (resolveActivePack rnd config state sid).2 = last_played state ∧
  prompt_timestamps (resolveActivePack rnd config state sid).2
    = prompt_timestamps state ∧
  (∀ other, other ≠ sid →
     session_packs (resolveActivePack rnd config state sid).2 !! other
       = session_packs state !! other).
Proof.
  split.
  - intros H. by rewrite resolveActivePack_no_rotation.
  - destruct (decide (pack_rotation config = [])) as [H|H].
    + rewrite resolveActivePack_no_rotation by exact H. done.
    + destruct (resolveActivePack_rotation rnd config state sid H)
        as (pack & _ & [[-> _] | ->]); [done |].
      destruct (assign_session_pack_cases state sid pack) as [-> | ->]; [done |].
      simpl. repeat split. intros other Hne. by apply lookup_insert_ne.
Qed.

Lemma resolveActivePack_frame_witness :
  (resolveActivePack draw_0_of_1 DEFAULT_CONFIG
     (set_session_pack EMPTY_STATE "s" "peasant") "s").2
  = set_session_pack EMPTY_STATE "s" "peasant" ∧
  session_packs
    (resolveActivePack draw_1_of_2 (with_rotation ["a"; "b"])
       (set_session_pack EMPTY_STATE "t" "a") "s").2 !! "t"
  = session_packs (set_session_pack EMPTY_STATE "t" "a") !! "t".
Proof.
  split.
  - apply (proj1 (resolveActivePack_frame draw_0_of_1 DEFAULT_CONFIG
                    (set_session_pack EMPTY_STATE "s" "peasant") "s")).
    reflexivity.
  - apply (proj2 (proj2 (proj2 (resolveActivePack_frame draw_1_of_2
              (with_rotation ["a"; "b"]) (set_session_pack EMPTY_STATE "t" "a") "s")))).
    discriminate.
Defined.

(** ** Loading the configuration and the state *)

(** Reading back what [JSON.stringify] wrote. *)
Lemma spread_stringify_config (base config : PeonConfig) :
  ∃ raw, JSON_parse (stringify_config config) = Some (JObject raw) ∧
         spread base raw = config.
Proof. eexists. split; [reflexivity |]. by destruct config. Qed.

Lemma loadConfig_saved (config : PeonConfig) (fs : Files) :
  loadConfig (saveConfig config fs).2 = (config, (saveConfig config fs).2).
Proof. unfold loadConfig, saveConfig; simpl. by destruct config. Qed.

Lemma loadState_saved (state : PeonState) (fs : Files) :
  loadState (saveState state fs).2 = (state, (saveState state fs).2).
Proof. unfold loadState, saveState; simpl. by destruct state. Qed.

Lemma loadState_files (fs : Files) : (loadState fs).2 = fs.
Proof.
  unfold loadState. destruct (state_json fs) as [[|[| |raw]]|]; reflexivity.
Qed.

Lemma loadConfig_missing (fs : Files) :
  config_json fs = None →
  loadConfig fs = (DEFAULT_CONFIG, write_config (stringify_config DEFAULT_CONFIG) fs).
Proof. intros H. unfold loadConfig. by rewrite H. Qed.

Lemma loadConfig_existing (fs : Files) :
  config_json fs ≠ None → (loadConfig fs).2 = fs.
Proof.
  intros H. unfold loadConfig.
  destruct (config_json fs) as [[|[| |raw]]|]; done.
Qed.

Lemma loadConfig_state_json (fs : Files) :
  state_json (loadConfig fs).2 = state_json fs.
Proof.
  unfold loadConfig. destruct (config_json fs) as [[|[| |raw]]|]; reflexivity.
Qed.

(** C10. With no [config.json], [loadConfig] writes the default record to
    the file and returns it: the file then holds the default record, which
    the next load reads back. With no [state.json], [loadState] returns the
    empty mappings and leaves the files as they are. *)
Theorem load_missing_files (fs : Files) :
  (config_json fs = None →
     (loadConfig fs).1 = DEFAULT_CONFIG ∧
     config_json (loadConfig fs).2 = Some (stringify_config DEFAULT_CONFIG) ∧
     state_json (loadConfig fs).2 = state_json fs ∧
     loadConfig (loadConfig fs).2 = (DEFAULT_CONFIG, (loadConfig fs).2)) ∧
  (state_json fs = None → loadState fs = (EMPTY_STATE, fs)).
Proof.
  split.
  - intros H. rewrite (loadConfig_missing fs H). simpl. done.
  - intros H. unfold loadState. by rewrite H.
Qed.

Lemma load_missing_files_witness :
  ((loadConfig no_files).1 = DEFAULT_CONFIG ∧
   config_json (loadConfig no_files).2 = Some (stringify_config DEFAULT_CONFIG) ∧
   state_json (loadConfig no_files).2 = state_json no_files ∧
   loadConfig (loadConfig no_files).2 = (DEFAULT_CONFIG, (loadConfig no_files).2)) ∧
  loadState no_files = (EMPTY_STATE, no_files).
Proof.
  split.
  - apply (proj1 (load_missing_files no_files)). reflexivity.
  - apply (proj2 (load_missing_files no_files)). reflexivity.
Defined.

(** C7. Loading never throws ([loadConfig] and [loadState] return a record
    on every content of the files). A missing or malformed [config.json]
    gives exactly the default record; a well-formed one gives, field by
    field, its own value or else the default. A missing or malformed
    [state.json], and every missing key of a well-formed one, gives the
    empty mapping. Once the default record is written back, loading
    returns it and changes nothing, so loading twice gives the same
    record. *)
Theorem load_self_healing (fs : Files) :
  (config_json fs = None ∨ config_json fs = Some Malformed →
     (loadConfig fs).1 = DEFAULT_CONFIG) ∧
  (∀ raw, config_json fs = Some (Text (JObject raw)) →
     let config := (loadConfig fs).1 in
     active_pack config = default (active_pack DEFAULT_CONFIG) (raw_active_pack raw) ∧
     volume config = default (volume DEFAULT_CONFIG) (raw_volume raw) ∧
     paused config = default (paused DEFAULT_CONFIG) (raw_paused raw) ∧
     categories config = default (categories DEFAULT_CONFIG) (raw_categories raw) ∧
     annoyed_threshold config
       = default (annoyed_threshold DEFAULT_CONFIG) (raw_annoyed_threshold raw) ∧
     annoyed_window_seconds config
       = default (annoyed_window_seconds DEFAULT_CONFIG)
                 (raw_annoyed_window_seconds raw) ∧
     pack_rotation config
       = default (pack_rotation DEFAULT_CONFIG) (raw_pack_rotation raw)) ∧
  (state_json fs = None ∨ state_json fs = Some Malformed →
     (loadState fs).1 = EMPTY_STATE) ∧
  (∀ raw, state_json fs = Some (Text (JObject raw)) →
     let state := (loadState fs).1 in
     (raw_last_played raw = None → last_played state = ∅) ∧
     (raw_prompt_timestamps raw = None → prompt_timestamps state = ∅) ∧
     (raw_session_packs raw = None → session_packs state = ∅)) ∧
  (let written := (saveConfig DEFAULT_CONFIG fs).2 in
   loadConfig written = (DEFAULT_CONFIG, written) ∧
   loadConfig (loadConfig written).2 = loadConfig written).
Proof.
  split; [| split; [| split; [| split]]].
  - intros [H | H]; unfold loadConfig; by rewrite H.
  - intros raw H. unfold loadConfig. rewrite H. simpl. done.
  - intros [H | H]; unfold loadState; by rewrite H.
  - intros raw H. unfold loadState. rewrite H. simpl.
    repeat split; by intros ->.
  - cbv zeta. split; [apply loadConfig_saved | by rewrite !loadConfig_saved].
Qed.

Lemma load_self_healing_witness :
  (loadConfig damaged_files).1 = DEFAULT_CONFIG ∧
  prompt_timestamps (loadState damaged_files).1 = ∅ ∧
  (loadState paused_files).1 = EMPTY_STATE ∧
  paused (loadConfig paused_files).1 = true ∧
  categories (loadConfig paused_files).1 = categories DEFAULT_CONFIG.
Proof.
  destruct (load_self_healing damaged_files) as (Hd1 & _ & _ & Hd4 & _).
  destruct (load_self_healing paused_files) as (_ & Hp2 & Hp3 & _).
  specialize (Hd4 _ eq_refl). specialize (Hp2 _ eq_refl). cbv zeta in Hd4, Hp2.
  split; [apply Hd1; by right |].
  split; [apply Hd4; reflexivity |].
  split; [apply Hp3; by left |].
  split; [apply Hp2 | apply Hp2].
Defined.

(** ** The event handler *)

Lemma lt_spec (x y : Q) : lt x y = true ↔ (x < y)%Q.
Proof.
  unfold lt. rewrite negb_true_iff, <- not_true_iff_false, Qle_bool_iff.
  split; [apply Qnot_le_lt | apply Qlt_not_le].
Qed.

Lemma ge_spec (x y : Q) : ge x y = true ↔ (y <= x)%Q.
Proof. unfold ge. apply Qle_bool_iff. Qed.

Lemma default_categories_enabled (c : SoundCategory) :
  categories DEFAULT_CONFIG !! category_key c = Some true.
Proof. by destruct c. Qed.

(** A flag the defaults do not have comes from an existing [config.json],
    which [loadConfig] does not write. *)
Lemma loadConfig_not_default (fs : Files) :
  (loadConfig fs).1 ≠ DEFAULT_CONFIG → (loadConfig fs).2 = fs.
Proof.
  intros H. apply loadConfig_existing. intros E. apply H.
  by rewrite (loadConfig_missing fs E).
Qed.

Lemma event_paused (w : World) (ev : Event) (fs : Files) :
  paused (loadConfig fs).1 = true → event w ev fs = (Normal [], fs).
Proof.
  intros H. unfold event.
  assert (Hfs : (loadConfig fs).2 = fs).
  { apply loadConfig_not_default. intros E. rewrite E in H. discriminate. }
  destruct (loadConfig fs) as [config fs']. simpl in *. by rewrite H, Hfs.
Qed.

Lemma event_running (w : World) (ev : Event) (fs : Files) :
  paused (loadConfig fs).1 = false →
  event w ev fs =
    match switch_event (now w) (loadConfig fs).1 ev (loadConfig fs).2 with
    | (Throw e, fs') => (Throw e, fs')
    | (Normal None, fs') => (Normal [], fs')
    | (Normal (Some v), fs') => cue w (loadConfig fs).1 v fs'
    end.
Proof.
  intros H. unfold event.
  destruct (loadConfig fs) as [config fs']. simpl in *. by rewrite H.
Qed.

Lemma cue_disabled (w : World) (config : PeonConfig) (v : Locals) (fs : Files) c :
  category v = Some c →
  categories config !! category_key c = Some false →
  cue w config v fs = (Normal [], fs).
Proof.
  intros Hc Hd. unfold cue. rewrite Hc. by rewrite bool_decide_eq_true_2.
Qed.

Lemma loadState_state_json (fs1 fs2 : Files) :
  state_json fs1 = state_json fs2 → (loadState fs1).1 = (loadState fs2).1.
Proof.
  intros H. unfold loadState. rewrite H.
  destruct (state_json fs2) as [[|[| |raw]]|]; reflexivity.
Qed.

Lemma loadState_pair (fs : Files) : loadState fs = ((loadState fs).1, fs).
Proof.
  rewrite <- (loadState_files fs) at 3. by destruct (loadState fs).
Qed.

(** The look-up of the stored timestamps when it does not end at an
    inherited property. *)
Lemma get_property_stored {V} (obj : gmap string (list V)) (key : string) :
  own_or_plain obj key →
  get_property obj key ≠ Inherited ∧
  match get_property obj key with Own ts => ts | _ => [] end
  = default [] (obj !! key).
Proof.
  intros [Hown | Hplain]; unfold get_property.
  - destruct (obj !! key); done.
  - destruct (obj !! key); [done |]. by rewrite bool_decide_eq_false_2.
Qed.

Lemma get_property_inherited {V} (obj : gmap string V) (key : string) :
  get_property obj key = Inherited ↔ ¬ own_or_plain obj key.
Proof.
  unfold get_property, own_or_plain. destruct (obj !! key) as [v|].
  - split; [done | intros H; destruct H; by left].
  - case_bool_decide as Hk.
    + split; [intros _ [H | H]; done | done].
    + split; [done | intros H; destruct H; by right].
Qed.

Lemma stored_timestamps_saved (state : PeonState) (sid : string) (ts : list Q)
    (fs : Files) :
  stored_timestamps sid (saveState (set_prompt_timestamps state sid ts) fs).2 = ts.
Proof.
  unfold stored_timestamps. rewrite loadState_saved. simpl.
  by rewrite lookup_insert_eq.
Qed.

(** The user-message branch of the switch. *)
Lemma switch_event_message (now : Q) (config : PeonConfig) (sid : string) (fs : Files) :
  own_or_plain (prompt_timestamps (loadState fs).1) sid →
  let timestamps :=
    observe now (annoyed_window_seconds config) (stored_timestamps sid fs) in
  switch_event now config (message_updated "user" sid) fs =
    (Normal (Some {|
       category :=
         if ge (length_of timestamps) (annoyed_threshold config)
            && negb (bool_decide (categories config !! "annoyed" = Some false))
         then Some annoyed else None;
       notify := false; notifyMessage := ""; sessionID := sid |}),
     (saveState (set_prompt_timestamps (loadState fs).1 sid timestamps) fs).2).
Proof.
  intros Hsid timestamps. unfold timestamps, stored_timestamps, switch_event.
  change (negb (String.eqb "user" "user")) with false. cbv iota.
  pose proof (loadState_files fs) as Hfs.
  destruct (loadState fs) as [state fs0]. simpl in Hsid, Hfs. subst fs0.
  cbn [fst]. destruct (get_property_stored _ _ Hsid) as [Hni Heq]. rewrite <- Heq.
  by destruct (get_property (prompt_timestamps state) sid).
Qed.

Lemma switch_event_message_throws (now : Q) (config : PeonConfig) (sid : string)
    (fs : Files) :
  ¬ own_or_plain (prompt_timestamps (loadState fs).1) sid →
  switch_event now config (message_updated "user" sid) fs = (Throw TypeError, fs).
Proof.
  intros Hsid. apply get_property_inherited in Hsid.
  unfold switch_event. change (negb (String.eqb "user" "user")) with false.
  cbv iota. pose proof (loadState_files fs) as Hfs.
  destruct (loadState fs) as [state fs0]. simpl in Hsid, Hfs. subst fs0.
  by rewrite Hsid.
Qed.

Lemma switch_event_not_user (now : Q) (config : PeonConfig) (role sid : string)
    (fs : Files) :
  role ≠ "user" →
  switch_event now config (message_updated role sid) fs = (Normal None, fs).
Proof.
  intros H. simpl. by rewrite (proj2 (String.eqb_neq role "user") H).
Qed.



(** ** Rapid prompts *)

(** The sequence [observe] builds: the stored timestamps for which
    [now - t >= window] does not hold, in their order and number, then
    [now]. *)
Lemma observe_window (now window : Q) (stored : list Q) :
  observe now window stored
  = (filter (λ t, ¬ (window <= minus now t)%Q) stored ++ [now])%list.
Proof.
  unfold observe. f_equal. apply list_filter_iff. intros t.
  rewrite lt_spec. split; [apply Qlt_not_le | apply Qnot_le_lt].
Qed.

(** The difference is rounded as the code rounds it: at [now = 2^54] the
    stored timestamp 1 is 2^54 - 1 seconds old, which is no double and
    rounds to 2^54, so a window of 2^54 seconds drops it. *)
Lemma observe_rounds_the_difference :
  observe (inject_Z (2 ^ 54)) (inject_Z (2 ^ 54)) [1%Q] = [inject_Z (2 ^ 54)] ∧
  (inject_Z (2 ^ 54) - 1 < inject_Z (2 ^ 54))%Q.
Proof. split; reflexivity. Qed.

Lemma resolveActivePack_prompt_timestamps rnd config state sid :
  prompt_timestamps (resolveActivePack rnd config state sid).2
  = prompt_timestamps state.
Proof.
  destruct (decide (pack_rotation config = [])) as [H|H].
  - by rewrite resolveActivePack_no_rotation.
  - destruct (resolveActivePack_rotation rnd config state sid H)
      as (pack & _ & [[-> _] | ->]); [done |].
    by destruct (assign_session_pack_cases state sid pack) as [-> | ->].
Qed.

Lemma pickSound_prompt_timestamps rnd manifest category state sound state' :
  pickSound rnd manifest category state = Normal (sound, state') →
  prompt_timestamps state' = prompt_timestamps state.
Proof.
  unfold pickSound.
  destruct (manifest_categories manifest !! category_key category) as [cat|];
    [| by intros [= _ <-]].
  destruct (sounds cat); [by intros [= _ <-] |].
  destruct (_ !! _); [by intros [= _ <-] | discriminate].
Qed.

(** The handler after the switch leaves the stored timestamps alone. *)
Lemma cue_prompt_timestamps (w : World) (config : PeonConfig) (v : Locals) (fs : Files) :
  prompt_timestamps (loadState (cue w config v fs).2).1
  = prompt_timestamps (loadState fs).1.
Proof.
  unfold cue. destruct (category v) as [c|]; [| reflexivity].
  case_bool_decide; [reflexivity |].
  rewrite (loadState_pair fs).
  pose proof (resolveActivePack_prompt_timestamps (rnd_pack w) config
                (loadState fs).1 (sessionID v)) as Hr.
  destruct (resolveActivePack _ _ _ _) as [activePack state]. simpl in Hr.
  destruct (loadManifest w activePack) as [manifest|]; [| reflexivity].
  destruct (pickSound _ _ _ _) as [[sound state']|e] eqn:Hp; [| reflexivity].
  apply pickSound_prompt_timestamps in Hp.
  change (prompt_timestamps (loadState (saveState state' fs).2).1
          = prompt_timestamps (loadState fs).1).
  rewrite loadState_saved. simpl. congruence.
Qed.

(** C2, as stated, fails: the length of the persisted sequence alone does
    not decide the category. With [annoyed] switched off, the third user
    message within the window leaves three timestamps on file, which
    reaches the threshold 3, and the switch resolves no category. *)
Lemma annoyed_not_by_length_alone :
  ¬ (∀ (now : Q) (config : PeonConfig) (sid : string) (fs : Files) v fs',
       switch_event now config (message_updated "user" sid) fs
       = (Normal (Some v), fs') →
       (category v = Some annoyed ↔
        ge (length_of (stored_timestamps sid fs')) (annoyed_threshold config) = true)).
Proof.
  intros H.
  specialize (H 2%Q annoyed_disabled "s" two_prompts _ _ eq_refl).
  destruct H as [_ H]. specialize (H eq_refl). discriminate.
Qed.

(** C2, amended. A user message at [now] for a session id whose look-up
    in the stored timestamps does not end at a property inherited from
    [Object.prototype]: the sequence is the stored timestamps of the
    session without those with [now - t >= window] (the subtraction of the
    code), in their order and number, followed by [now]; it is written to
    the state file whatever the category, and is still there when the
    handler, not paused, ends; the switch resolves [annoyed] exactly when
    the length of the sequence reaches the threshold and
    [categories.annoyed] is not [false], and no category otherwise. With
    window 10 and threshold 3, messages at seconds 0, 1, 2 resolve
    [annoyed] on the third, and a following message at second 13 resolves
    nothing and leaves only its own timestamp. *)
Theorem rapid_prompt_observation
    (w : World) (config : PeonConfig) (sid : string) (fs : Files) :
  own_or_plain (prompt_timestamps (loadState fs).1) sid →
  let timestamps :=
    observe (now w) (annoyed_window_seconds config) (stored_timestamps sid fs) in
  timestamps
  = (filter (λ t, ¬ (annoyed_window_seconds config <= minus (now w) t)%Q)
            (stored_timestamps sid fs) ++ [now w])%list ∧
  (∃ v fs',
     switch_event (now w) config (message_updated "user" sid) fs
     = (Normal (Some v), fs') ∧
     sessionID v = sid ∧
     prompt_timestamps (loadState fs').1 !! sid = Some timestamps ∧
     (category v = Some annoyed ↔
      (annoyed_threshold config <= length_of timestamps)%Q ∧
      categories config !! "annoyed" ≠ Some false) ∧
     (category v ≠ Some annoyed → category v = None)) ∧
  (paused (loadConfig fs).1 = false →
   prompt_timestamps (loadState (event w (message_updated "user" sid) fs).2).1 !! sid
   = Some (observe (now w) (annoyed_window_seconds (loadConfig fs).1)
                   (stored_timestamps sid fs))) ∧
  burst.1 = [None; None; Some annoyed; None] ∧
  stored_timestamps "s" burst.2 = [13%Q].
Proof.
  intros Hsid timestamps. split; [apply observe_window |].
  split; [| split; [| split; reflexivity]].
  - eexists _, _. split; [apply (switch_event_message _ _ _ _ Hsid) |].
    fold timestamps. split; [reflexivity |]. split.
    { rewrite loadState_saved. simpl. apply lookup_insert_eq. }
    simpl. split.
    + rewrite <- ge_spec.
      destruct (ge _ _); simpl; [| split; [discriminate | intros [? _]; discriminate]].
      case_bool_decide; simpl.
      * split; [discriminate | intros [_ ?]; done].
      * done.
    + destruct (_ && _); [intros H; by destruct H | reflexivity].
  - intros Hp.
    assert (Hsid' : own_or_plain (prompt_timestamps (loadState (loadConfig fs).2).1) sid)
      by (by rewrite (loadState_state_json _ _ (loadConfig_state_json fs))).
    rewrite (event_running w _ fs Hp), (switch_event_message _ _ _ _ Hsid').
    rewrite cue_prompt_timestamps, loadState_saved. simpl.
    rewrite lookup_insert_eq. unfold stored_timestamps.
    by rewrite (loadState_state_json _ _ (loadConfig_state_json fs)).
Qed.

Lemma rapid_prompt_observation_witness :
  prompt_timestamps
    (loadState
       (event (quiet_world 2)
              (message_updated "user" "s") two_prompts).2).1 !! "s"
  = Some [0; 1; 2]%Q.
Proof.
  refine (proj1 (proj2 (proj2
    (rapid_prompt_observation (quiet_world 2) DEFAULT_CONFIG "s" two_prompts _))) _).
  - left. discriminate.
  - reflexivity.
Defined.

(** ** Pause and disabled categories *)

(** C6. When the configuration is paused the handler returns at once: no
    action, and both files as they were. When the category the switch
    resolves for the event is switched off in [categories], the handler
    returns with no action and both files as they were; so a session error
    with [categories.error = false] plays nothing, notifies nothing and
    leaves the state file alone. (For a user message the switch resolves
    [annoyed] only when that category is not switched off.) *)
Theorem event_halts_when_paused_or_disabled (w : World) (ev : Event) (fs : Files) :
  (paused (loadConfig fs).1 = true → event w ev fs = (Normal [], fs)) ∧
  (∀ v fs' c,
     switch_event (now w) (loadConfig fs).1 ev (loadConfig fs).2
     = (Normal (Some v), fs') →
     category v = Some c →
     categories (loadConfig fs).1 !! category_key c = Some false →
     event w ev fs = (Normal [], fs)) ∧
  (∀ sid, categories (loadConfig fs).1 !! "error" = Some false →
     event w (session_error sid) fs = (Normal [], fs)).
Proof.
  assert (Hoff : ∀ c, categories (loadConfig fs).1 !! category_key c = Some false →
                      (loadConfig fs).2 = fs).
  { intros c Hc. apply loadConfig_not_default. intros E. rewrite E in Hc.
    rewrite default_categories_enabled in Hc. discriminate. }
  assert (Hdisabled : ∀ ev' v fs' c,
    switch_event (now w) (loadConfig fs).1 ev' (loadConfig fs).2
    = (Normal (Some v), fs') →
    category v = Some c →
    categories (loadConfig fs).1 !! category_key c = Some false →
    event w ev' fs = (Normal [], fs)).
  { intros ev' v fs' c Hsw Hc Hd.
    destruct (paused (loadConfig fs).1) eqn:Hp; [by apply event_paused |].
    rewrite (event_running w ev' fs Hp), Hsw, (cue_disabled w _ v fs' c Hc Hd).
    f_equal. rewrite <- (Hoff c Hd).
    destruct ev' as [id|sid|sid|sid|role sid|type]; simpl in Hsw.
    - by injection Hsw.
    - by injection Hsw.
    - by injection Hsw.
    - by injection Hsw.
    - destruct (negb (String.eqb role "user")); [discriminate |].
      rewrite (loadState_pair (loadConfig fs).2) in Hsw. simpl in Hsw.
      destruct (get_property _ sid); [| discriminate |];
        injection Hsw as <- <-; simpl in Hc;
        (destruct (ge _ _ && _) eqn:Hb; [| discriminate]);
        injection Hc as <-; simpl in Hd;
        apply andb_true_iff in Hb as [_ Hb]; apply negb_true_iff in Hb;
        by apply bool_decide_eq_false in Hb.
    - discriminate. }
  split; [apply event_paused |]. split; [apply Hdisabled |].
  intros sid Hd. eapply (Hdisabled (session_error sid)); [reflexivity | reflexivity | exact Hd].
Qed.

Lemma event_halts_when_paused_or_disabled_witness :
  event loud_world (session_idle "s") paused_files = (Normal [], paused_files) ∧
  event loud_world (session_error (Some "s")) error_disabled_files
    = (Normal [], error_disabled_files).
Proof.
  split.
  - apply (proj1 (event_halts_when_paused_or_disabled loud_world
                    (session_idle "s") paused_files)).
    reflexivity.
  - apply (proj2 (proj2 (event_halts_when_paused_or_disabled loud_world
                    (session_error (Some "s")) error_disabled_files))).
    reflexivity.
Defined.

(** * Further properties of the code *)

(** ** The sound selector, continued *)

Lemma random_index_one (rnd : Random) : random_index rnd 1 = 0%nat.
Proof. pose proof (random_index_lt rnd 1). lia. Qed.

Lemma not_last_nil_iff (lastFile : string) (l : list SoundEntry) :
  not_last lastFile l = [] ↔ ∀ s, s ∈ l → file s = lastFile.
Proof.
  unfold not_last. split.
  - intros Hnil s Hs. destruct (decide (file s = lastFile)) as [|Hne]; [done |].
    assert (Hin : s ∈ filter (λ s, file s ≠ lastFile) l)
      by (apply list_elem_of_filter; done).
    rewrite Hnil in Hin. by apply not_elem_of_nil in Hin.
  - intros Hall. destruct (filter _ l) as [|x rest] eqn:E; [done |].
    assert (Hin : x ∈ filter (λ s, file s ≠ lastFile) l)
      by (rewrite E; apply list_elem_of_here).
    apply list_elem_of_filter in Hin as [Hne Hin]. by specialize (Hall x Hin).
Qed.

(** X1. A category with one sound always gives that sound, also right after
    it was played, and never throws. *)
Theorem pickSound_single_sound
    (rnd : Random) (manifest : PackManifest) (category : SoundCategory)
    (state : PeonState) (only : SoundEntry) :
  manifest_categories manifest !! category_key category
    = Some {| sounds := [only] |} →
  pickSound rnd manifest category state
  = Normal (Some only, set_last_played state (category_key category) (file only)) ∧
  pickSound rnd manifest category
    (set_last_played state (category_key category) (file only))
  = Normal (Some only,
            set_last_played (set_last_played state (category_key category) (file only))
                            (category_key category) (file only)).
Proof.
  intros Hcat.
  assert (Hany : ∀ st, pickSound rnd manifest category st
            = Normal (Some only, set_last_played st (category_key category) (file only))).
  { intros st. rewrite (pickSound_unfold rnd _ _ st _ Hcat) by discriminate.
    unfold candidates_of. simpl. by rewrite random_index_one. }
  split; apply Hany.
Qed.

Lemma pickSound_single_sound_witness :
  pickSound draw_1_of_2 greeting_pack greeting EMPTY_STATE
  = Normal (Some {| file := "ready.mp3"; line := "Ready to work?" |},
            set_last_played EMPTY_STATE "greeting" "ready.mp3").
Proof.
  apply (proj1 (pickSound_single_sound draw_1_of_2 greeting_pack greeting EMPTY_STATE
                  {| file := "ready.mp3"; line := "Ready to work?" |} eq_refl)).
Defined.

(** X2. The selector throws exactly when the category has at least two sounds
    and each of them carries the file recorded in [last_played] (the empty
    string when nothing is recorded). *)
Theorem pickSound_throws_iff
    (rnd : Random) (manifest : PackManifest) (category : SoundCategory)
    (state : PeonState) :
  pickSound rnd manifest category state = Throw TypeError ↔
  ∃ cat, manifest_categories manifest !! category_key category = Some cat ∧
         (2 ≤ length (sounds cat))%nat ∧
         ∀ s, s ∈ sounds cat →
              file s = default "" (last_played state !! category_key category).
Proof.
  split.
  - intros Ht.
    destruct (manifest_categories manifest !! category_key category) as [cat|] eqn:Hcat;
      [| by rewrite pickSound_absent in Ht].
    destruct (decide (sounds cat = [])) as [E|Hs];
      [by rewrite (pickSound_no_sounds _ _ _ _ cat Hcat E) in Ht |].
    destruct (decide (candidates_of category state cat = [])) as [Hc|Hc].
    + exists cat. split; [reflexivity |]. unfold candidates_of in Hc.
      case_decide; [done |]. split; [lia |]. by apply not_last_nil_iff.
    + destruct (pickSound_some rnd _ _ state cat Hcat Hc) as (pick & _ & Hp).
      rewrite Hp in Ht. discriminate.
  - intros (cat & Hcat & Hlen & Hall).
    apply (pickSound_throw rnd _ _ _ cat Hcat).
    + intros E. rewrite E in Hlen. simpl in Hlen. lia.
    + unfold candidates_of. case_decide; [lia |]. by apply not_last_nil_iff.
Qed.

(** X3. A call that returns changes nothing but [last_played] of its
    category: no sound, no change; a sound, then it is one of the sounds
    of the category and the one recorded. *)
Theorem pickSound_frame
    (rnd : Random) (manifest : PackManifest) (category : SoundCategory)
    (state state' : PeonState) (sound : option SoundEntry) :
  pickSound rnd manifest category state = Normal (sound, state') →
  prompt_timestamps state' = prompt_timestamps state ∧
  session_packs state' = session_packs state ∧
  (∀ other, other ≠ category_key category →
            last_played state' !! other = last_played state !! other) ∧
  match sound with
  | None => state' = state
  | Some pick =>
    last_played state' !! category_key category = Some (file pick) ∧
    ∃ cat, manifest_categories manifest !! category_key category = Some cat ∧
           pick ∈ sounds cat
  end.
Proof.
  intros Hp.
  destruct (manifest_categories manifest !! category_key category) as [cat|] eqn:Hcat.
  - destruct sound as [pick|].
    + destruct (pickSound_inv rnd _ _ _ cat pick state' Hcat Hp) as [Hin ->].
      simpl. repeat split.
      * intros other Hne. by apply lookup_insert_ne.
      * apply lookup_insert_eq.
      * exists cat. split; [reflexivity |]. by apply candidates_of_sounds in Hin.
    + destruct (decide (sounds cat = [])) as [E|Hs].
      * rewrite (pickSound_no_sounds _ _ _ _ cat Hcat E) in Hp. by injection Hp as <-.
      * rewrite (pickSound_unfold rnd _ _ _ cat Hcat Hs) in Hp.
        destruct (_ !! _); discriminate.
  - rewrite (pickSound_absent rnd _ _ _ Hcat) in Hp. by injection Hp as <- <-.
Qed.

Lemma pickSound_frame_witness :
  last_played (set_last_played (set_last_played EMPTY_STATE "error" "no.mp3")
                 "complete" "a.mp3") !! "error"
  = last_played (set_last_played EMPTY_STATE "error" "no.mp3") !! "error".
Proof.
  refine (proj1 (proj2 (proj2 (pickSound_frame draw_0_of_2 two_sound_pack complete
            (set_last_played EMPTY_STATE "error" "no.mp3") _
            (Some {| file := "a.mp3"; line := "Work, work." |}) _))) "error" _).
  - reflexivity.
  - discriminate.
Defined.

(** X4. Every candidate is the pick of some draw. *)
Theorem pickSound_reaches_every_candidate
    (manifest : PackManifest) (category : SoundCategory) (state : PeonState)
    (cat : CategoryEntry) (pick : SoundEntry) :
  manifest_categories manifest !! category_key category = Some cat →
  pick ∈ candidates_of category state cat →
  ∃ rnd, pickSound rnd manifest category state
         = Normal (Some pick, set_last_played state (category_key category) (file pick)).
Proof.
  intros Hcat Hin.
  assert (Hs : sounds cat ≠ []).
  { intros E. unfold candidates_of in Hin. rewrite E in Hin. simpl in Hin.
    by apply not_elem_of_nil in Hin. }
  apply list_elem_of_lookup in Hin as [k Hk].
  pose proof (lookup_lt_Some _ _ _ Hk) as Hlt.
  exists (draw k _ Hlt).
  rewrite (pickSound_unfold _ _ _ _ cat Hcat Hs), random_index_draw, Hk. reflexivity.
Qed.

Lemma pickSound_reaches_every_candidate_witness :
  ∃ rnd, pickSound rnd two_sound_pack complete EMPTY_STATE
         = Normal (Some {| file := "b.mp3"; line := "Okie dokie." |},
                   set_last_played EMPTY_STATE "complete" "b.mp3").
Proof.
  apply (pickSound_reaches_every_candidate two_sound_pack complete EMPTY_STATE
           (two_sounds "Work, work." "Okie dokie.")
           {| file := "b.mp3"; line := "Okie dokie." |} eq_refl).
  apply list_elem_of_further, list_elem_of_here.
Defined.

(** ** The pack resolver, continued *)

(** X5. Under a rotation, a session (of an id other than [__proto__])
    with no recorded pack, or with one that left the rotation, is given
    a pack of the rotation, whatever the draw, and that pack is recorded
    in place of the old one. *)
Theorem resolveActivePack_assigns
    (rnd : Random) (config : PeonConfig) (state : PeonState) (sid : string) :
  pack_rotation config ≠ [] →
  sid ≠ "__proto__" →
  (∀ old, session_packs state !! sid = Some old → old ∉ pack_rotation config) →
  (resolveActivePack rnd config state sid).1 ∈ pack_rotation config ∧
  (resolveActivePack rnd config state sid).2
  = set_session_pack state sid (resolveActivePack rnd config state sid).1 ∧
  session_packs (resolveActivePack rnd config state sid).2 !! sid
  ≠ session_packs state !! sid.
Proof.
  intros Hrot Hsid Hstale.
  destruct (resolveActivePack_rotation rnd config state sid Hrot)
    as (pack & Hin & [[_ Hs] | ->]).
  - by destruct (Hstale pack Hs).
  - rewrite assign_session_pack_recorded by auto.
    simpl. repeat split; [exact Hin |].
    rewrite lookup_insert_eq. intros Heq. symmetry in Heq.
    by destruct (Hstale pack Heq).
Qed.

Lemma resolveActivePack_assigns_witness :
  (resolveActivePack draw_1_of_2 (with_rotation ["a"; "b"])
     (set_session_pack EMPTY_STATE "s" "peasant") "s").2
  = set_session_pack (set_session_pack EMPTY_STATE "s" "peasant") "s"
      (resolveActivePack draw_1_of_2 (with_rotation ["a"; "b"])
         (set_session_pack EMPTY_STATE "s" "peasant") "s").1.
Proof.
  refine (proj1 (proj2 (resolveActivePack_assigns draw_1_of_2 (with_rotation ["a"; "b"])
            (set_session_pack EMPTY_STATE "s" "peasant") "s" _ _ _))).
  - discriminate.
  - discriminate.
  - intros old Hold. injection Hold as <-. set_unfold.
    intros [H | [H | []]]; discriminate.
Defined.

(** X6. Every pack of the rotation is the assignment of some draw, for a
    session of an id other than [__proto__] that has no recorded pack. *)
Theorem resolveActivePack_reaches_every_pack
    (config : PeonConfig) (state : PeonState) (sid pack : string) :
  pack ∈ pack_rotation config →
  sid ≠ "__proto__" →
  session_packs state !! sid = None →
  ∃ rnd, resolveActivePack rnd config state sid
         = (pack, set_session_pack state sid pack).
Proof.
  intros Hin Hsid Hs. apply list_elem_of_lookup in Hin as [k Hk].
  pose proof (lookup_lt_Some _ _ _ Hk) as Hlt.
  exists (draw k _ Hlt). unfold resolveActivePack.
  destruct (pack_rotation config) as [|first rest] eqn:E; [done |].
  rewrite random_index_draw, (nth_lookup_Some _ _ first _ Hk).
  rewrite assign_session_pack_recorded by auto.
  unfold get_property. rewrite Hs. by case_bool_decide.
Qed.

Lemma resolveActivePack_reaches_every_pack_witness :
  ∃ rnd, resolveActivePack rnd (with_rotation ["a"; "b"]) EMPTY_STATE "s"
         = ("b", set_session_pack EMPTY_STATE "s" "b").
Proof.
  apply (resolveActivePack_reaches_every_pack (with_rotation ["a"; "b"])
           EMPTY_STATE "s" "b").
  - apply list_elem_of_further, list_elem_of_here.
  - discriminate.
  - reflexivity.
Defined.

(** ** The files, continued *)

(** X7. What [saveConfig] and [saveState] write is what the next load returns,
    each leaves the other file alone, and their order does not matter. *)
Theorem save_load_round_trip (config : PeonConfig) (state : PeonState) (fs : Files) :
  loadConfig (saveConfig config fs).2 = (config, (saveConfig config fs).2) ∧
  loadState (saveState state fs).2 = (state, (saveState state fs).2) ∧
  (loadState (saveConfig config fs).2).1 = (loadState fs).1 ∧
  (loadConfig (saveState state fs).2).1 = (loadConfig fs).1 ∧
  (saveState state (saveConfig config fs).2).2
  = (saveConfig config (saveState state fs).2).2.
Proof.
  split; [apply loadConfig_saved |]. split; [apply loadState_saved |].
  split; [by apply loadState_state_json |]. split; [| reflexivity].
  unfold loadConfig, saveState; simpl.
  destruct (config_json fs) as [[|[| |raw]]|]; reflexivity.
Qed.

(** X8. Loading the configuration a second time returns the same record and
    writes nothing; a [config.json] that exists is never written by a
    load, not even a malformed one; after a load the file exists. *)
Theorem loadConfig_idempotent (fs : Files) :
  loadConfig (loadConfig fs).2 = ((loadConfig fs).1, (loadConfig fs).2) ∧
  (config_json fs ≠ None → (loadConfig fs).2 = fs) ∧
  config_json (loadConfig fs).2 ≠ None.
Proof.
  split; [| split; [apply loadConfig_existing |]].
  - unfold loadConfig. destruct (config_json fs) as [[|[| |raw]]|] eqn:E; simpl;
      rewrite ?E; reflexivity.
  - unfold loadConfig. destruct (config_json fs) as [[|[| |raw]]|] eqn:E; simpl;
      rewrite ?E; discriminate.
Qed.

Lemma loadConfig_idempotent_witness :
  (loadConfig damaged_files).2 = damaged_files.
Proof.
  apply (proj1 (proj2 (loadConfig_idempotent damaged_files))). discriminate.
Defined.

(** ** Rapid prompts, continued *)

Lemma get_property_not_inherited {V} (obj : gmap string V) (key : string) :
  get_property obj key ≠ Inherited → own_or_plain obj key.
Proof.
  unfold get_property, own_or_plain. destruct (obj !! key) as [v|]; [by left |].
  case_bool_decide; [done | by right].
Qed.

Lemma minus_self (x : Q) : minus x x = 0%Q.
Proof.
  unfold minus, to_double.
  assert (H : Qnum (x - x) = 0%Z).
  { destruct x as [n d]. unfold Qminus, Qplus, Qopp. simpl. lia. }
  by rewrite H.
Qed.

Lemma observe_length (now window : Q) (stored : list Q) :
  (1 ≤ length (observe now window stored) ≤ S (length stored))%nat.
Proof.
  unfold observe. rewrite length_app. simpl.
  pose proof (length_filter (λ t, lt (minus now t) window = true) stored). lia.
Qed.

Lemma stored_after_message (now : Q) (config : PeonConfig) (sid : string) (fs : Files) :
  own_or_plain (prompt_timestamps (loadState fs).1) sid →
  stored_timestamps sid (switch_event now config (message_updated "user" sid) fs).2
  = observe now (annoyed_window_seconds config) (stored_timestamps sid fs).
Proof.
  intros Hsid. rewrite (switch_event_message _ _ _ _ Hsid).
  apply stored_timestamps_saved.
Qed.

(** X9. With a positive window, and for a session id whose look-up does
    not end at a property inherited from [Object.prototype], the
    timestamps of the session on file after a user message at [now] all
    satisfy [now - t < window] (the subtraction of the code); the last one
    is [now], and the sequence has grown by at most one. *)
Theorem prompt_timestamps_within_window
    (now : Q) (config : PeonConfig) (sid : string) (fs : Files) :
  own_or_plain (prompt_timestamps (loadState fs).1) sid →
  (0 < annoyed_window_seconds config)%Q →
  let after :=
    stored_timestamps sid (switch_event now config (message_updated "user" sid) fs).2 in
  Forall (λ t, (minus now t < annoyed_window_seconds config)%Q) after ∧
  last after = Some now ∧
  (1 ≤ length after ≤ S (length (stored_timestamps sid fs)))%nat.
Proof.
  intros Hsid Hw after. unfold after. rewrite (stored_after_message _ _ _ _ Hsid).
  split; [| split; [apply last_snoc | apply observe_length]].
  unfold observe. apply Forall_app. split.
  - apply Forall_forall. intros t Ht.
    apply list_elem_of_filter in Ht as [Ht _]. by apply lt_spec.
  - apply Forall_singleton. by rewrite minus_self.
Qed.

Lemma prompt_timestamps_within_window_witness :
  last (stored_timestamps "s"
          (switch_event 13 DEFAULT_CONFIG (message_updated "user" "s") two_prompts).2)
  = Some 13%Q.
Proof.
  refine (proj1 (proj2 (prompt_timestamps_within_window 13 DEFAULT_CONFIG "s"
                          two_prompts _ eq_refl))).
  left. discriminate.
Defined.

(** X10. A message event writes nothing but the timestamps of its own
    session: [config.json], [last_played], [session_packs] and the
    timestamps of every other session are as before; and when the role is
    not [user] it writes nothing at all. *)
Theorem message_updated_frame
    (now : Q) (config : PeonConfig) (role sid : string) (fs : Files) :
  let after := (switch_event now config (message_updated role sid) fs).2 in
  config_json after = config_json fs ∧
  last_played (loadState after).1 = last_played (loadState fs).1 ∧
  session_packs (loadState after).1 = session_packs (loadState fs).1 ∧
  (∀ other, other ≠ sid →
     prompt_timestamps (loadState after).1 !! other
     = prompt_timestamps (loadState fs).1 !! other) ∧
  (role ≠ "user" → after = fs).
Proof.
  intros after. unfold after. clear after.
  destruct (String.eqb role "user") eqn:Hrole.
  - apply String.eqb_eq in Hrole as ->.
    destruct (get_property (prompt_timestamps (loadState fs).1) sid) eqn:Hg.
    1, 3: assert (Hsid : own_or_plain (prompt_timestamps (loadState fs).1) sid)
        by (apply get_property_not_inherited; by rewrite Hg);
      rewrite (switch_event_message _ _ _ _ Hsid); cbn [snd];
      rewrite loadState_saved; simpl;
      repeat split; [intros other Hne; by apply lookup_insert_ne | done].
    apply get_property_inherited in Hg.
    by rewrite (switch_event_message_throws _ _ _ _ Hg).
  - apply String.eqb_neq in Hrole.
    by rewrite (switch_event_not_user _ _ _ _ _ Hrole).
Qed.

Lemma message_updated_frame_witness :
  (switch_event 0 DEFAULT_CONFIG (message_updated "assistant" "s") two_prompts).2
  = two_prompts.
Proof.
  apply (proj2 (proj2 (proj2 (proj2
    (message_updated_frame 0 DEFAULT_CONFIG "assistant" "s" two_prompts))))).
  discriminate.
Defined.

(** X11. For a session id whose look-up does not end at a property
    inherited from [Object.prototype], a threshold of at most 1 makes
    every user message [annoyed], unless the category is switched off; and
    [annoyed] is never resolved before the session has [threshold - 1]
    timestamps on file. *)
Theorem annoyed_threshold_edges
    (now : Q) (config : PeonConfig) (sid : string) (fs : Files) :
  (own_or_plain (prompt_timestamps (loadState fs).1) sid →
   (annoyed_threshold config <= 1)%Q →
   categories config !! "annoyed" ≠ Some false →
   (observe_at now config sid fs).1 = Some annoyed) ∧
  ((observe_at now config sid fs).1 = Some annoyed →
   (annoyed_threshold config
    <= inject_Z (Z.of_nat (S (length (stored_timestamps sid fs)))))%Q).
Proof.
  pose proof (observe_length now (annoyed_window_seconds config)
                (stored_timestamps sid fs)) as Hlen.
  split.
  - intros Hsid Hth Hon. unfold observe_at.
    rewrite (switch_event_message _ _ _ _ Hsid). simpl.
    set (ts := observe now _ _) in *.
    assert (Hge : ge (length_of ts) (annoyed_threshold config) = true).
    { apply ge_spec. eapply Qle_trans; [exact Hth |].
      unfold length_of. change 1%Q with (inject_Z 1). rewrite <- Zle_Qle. lia. }
    rewrite Hge. simpl. by rewrite bool_decide_eq_false_2.
  - unfold observe_at.
    destruct (get_property (prompt_timestamps (loadState fs).1) sid) eqn:Hg.
    2: { apply get_property_inherited in Hg.
         by rewrite (switch_event_message_throws _ _ _ _ Hg). }
    all: assert (Hsid : own_or_plain (prompt_timestamps (loadState fs).1) sid)
        by (apply get_property_not_inherited; by rewrite Hg);
      rewrite (switch_event_message _ _ _ _ Hsid); simpl;
      set (ts := observe now _ _) in *;
      (destruct (ge (length_of ts) (annoyed_threshold config)) eqn:Hge;
       [| simpl; discriminate]);
      intros _; apply ge_spec in Hge; (eapply Qle_trans; [exact Hge |]);
      unfold length_of; rewrite <- Zle_Qle; lia.
Qed.

Lemma annoyed_threshold_edges_witness :
  (observe_at 0 hair_trigger "s" no_files).1 = Some annoyed ∧
  (annoyed_threshold DEFAULT_CONFIG <= inject_Z (Z.of_nat 3))%Q.
Proof.
  split.
  - apply (proj1 (annoyed_threshold_edges 0 hair_trigger "s" no_files)).
    + right. apply (bool_decide_unpack _). by vm_compute.
    + discriminate.
    + discriminate.
  - apply (proj2 (annoyed_threshold_edges 2 DEFAULT_CONFIG "s" two_prompts)).
    reflexivity.
Defined.

(** ** The event handler, continued *)

Lemma loadConfig_config_json (fs1 fs2 : Files) :
  config_json fs1 = config_json fs2 → (loadConfig fs1).1 = (loadConfig fs2).1.
Proof.
  intros H. unfold loadConfig. rewrite H.
  destruct (config_json fs2) as [[|[| |raw]]|]; reflexivity.
Qed.

Lemma loadConfig_again (fs : Files) : (loadConfig (loadConfig fs).2).1 = (loadConfig fs).1.
Proof.
  unfold loadConfig. destruct (config_json fs) as [[|[| |raw]]|] eqn:E; simpl;
    rewrite ?E; reflexivity.
Qed.

Lemma own_or_plain_cases {V} (obj : gmap string V) (key : string) :
  own_or_plain obj key ∨ ¬ own_or_plain obj key.
Proof.
  destruct (get_property obj key) eqn:Hg.
  2: { right. by apply get_property_inherited. }
  all: left; apply get_property_not_inherited; by rewrite Hg.
Qed.

(** The switch throws only in the look-up of the timestamps of a user
    message. *)
Lemma switch_event_throw_inv (now : Q) (config : PeonConfig) (ev : Event)
    (fs : Files) e :
  (switch_event now config ev fs).1 = Throw e →
  ∃ sid, ev = message_updated "user" sid ∧
         ¬ own_or_plain (prompt_timestamps (loadState fs).1) sid.
Proof.
  destruct ev as [id|sid|sid|sid|role sid|type]; try discriminate.
  destruct (String.eqb role "user") eqn:Hrole.
  2: { apply String.eqb_neq in Hrole.
       by rewrite (switch_event_not_user _ _ _ _ _ Hrole). }
  apply String.eqb_eq in Hrole as ->.
  destruct (own_or_plain_cases (prompt_timestamps (loadState fs).1) sid)
    as [Hsid | Hsid].
  - by rewrite (switch_event_message _ _ _ _ Hsid).
  - intros _. by exists sid.
Qed.

(** What the switch leaves of the files, and what it sets. *)
Lemma switch_event_keeps (now : Q) (config : PeonConfig) (ev : Event) (fs : Files) :
  config_json (switch_event now config ev fs).2 = config_json fs ∧
  last_played (loadState (switch_event now config ev fs).2).1
  = last_played (loadState fs).1 ∧
  session_packs (loadState (switch_event now config ev fs).2).1
  = session_packs (loadState fs).1.
Proof.
  destruct ev as [id|sid|sid|sid|role sid|type]; try done.
  destruct (String.eqb role "user") eqn:Hrole.
  - apply String.eqb_eq in Hrole as ->.
    destruct (own_or_plain_cases (prompt_timestamps (loadState fs).1) sid)
      as [Hsid | Hsid].
    + rewrite (switch_event_message _ _ _ _ Hsid). cbn [snd].
      by rewrite loadState_saved.
    + by rewrite (switch_event_message_throws _ _ _ _ Hsid).
  - apply String.eqb_neq in Hrole.
    by rewrite (switch_event_not_user _ _ _ _ _ Hrole).
Qed.

Lemma switch_event_locals (now : Q) (config : PeonConfig) (ev : Event) (fs : Files) v :
  (switch_event now config ev fs).1 = Normal (Some v) →
  session_of ev = Some (sessionID v) ∧
  (∀ c, category v = Some c → category_of ev = Some c) ∧
  (notify v = true →
   (∃ sid, ev = session_idle sid) ∧ notifyMessage v = "Task complete" ∨
   (∃ sid, ev = session_error sid) ∧ notifyMessage v = "Session error" ∨
   (∃ sid, ev = permission_asked sid) ∧ notifyMessage v = "Permission needed").
Proof.
  destruct ev as [id|sid|sid|sid|role sid|type].
  - simpl. intros [= <-]. simpl. split; [done |]. split; [by intros c [= <-] | done].
  - simpl. intros [= <-]. simpl. split; [done |]. split; [by intros c [= <-] |].
    intros _. left. eauto.
  - simpl. intros [= <-]. simpl. split; [done |]. split; [by intros c [= <-] |].
    intros _. right. left. eauto.
  - simpl. intros [= <-]. simpl. split; [done |]. split; [by intros c [= <-] |].
    intros _. right. right. eauto.
  - destruct (String.eqb role "user") eqn:Hrole.
    2: { apply String.eqb_neq in Hrole.
         by rewrite (switch_event_not_user _ _ _ _ _ Hrole). }
    apply String.eqb_eq in Hrole as ->.
    destruct (own_or_plain_cases (prompt_timestamps (loadState fs).1) sid)
      as [Hsid | Hsid].
    + rewrite (switch_event_message _ _ _ _ Hsid). simpl. intros [= <-]. simpl.
      split; [done |]. split; [| done].
      intros c. destruct (_ && _); [by intros [= <-] | discriminate].
    + by rewrite (switch_event_message_throws _ _ _ _ Hsid).
  - discriminate.
Qed.

(** The three ways the handler ends after the switch. *)
Lemma cue_cases (w : World) (config : PeonConfig) (v : Locals) (fs : Files) :
  cue w config v fs = (Normal [], fs) ∨
  cue w config v fs = (Throw TypeError, fs) ∨
  ∃ c activePack state1 manifest sound state2,
    category v = Some c ∧
    categories config !! category_key c ≠ Some false ∧
    resolveActivePack (rnd_pack w) config (loadState fs).1 (sessionID v)
      = (activePack, state1) ∧
    loadManifest w activePack = Some manifest ∧
    pickSound (rnd_sound w) manifest c state1 = Normal (sound, state2) ∧
    cue w config v fs
      = (Normal (play w config v activePack sound), (saveState state2 fs).2).
Proof.
  unfold cue. destruct (category v) as [c|]; [| by left].
  case_bool_decide as Hoff; [by left |].
  rewrite (loadState_pair fs).
  destruct (resolveActivePack _ _ _ _) as [activePack state1] eqn:Hr.
  destruct (loadManifest w activePack) as [manifest|] eqn:Hm; [| by left].
  destruct (pickSound _ _ _ _) as [[sound state2]|[]] eqn:Hp; [| by right; left].
  right. right. exists c, activePack, state1, manifest, sound, state2. done.
Qed.

Lemma play_cases (w : World) (config : PeonConfig) (v : Locals)
    (activePack : string) (sound : option SoundEntry) :
  play w config v activePack sound = [] ∨
  ∃ s, sound = Some s ∧ sound_exists w activePack (file s) = true ∧
    (play w config v activePack sound
       = [Afplay (volume config) activePack (file s)] ∨
     play w config v activePack sound
       = [Afplay (volume config) activePack (file s); Notification (notifyMessage v)] ∧
     notify v = true ∧
     ∀ app, foreground w = Some app → app ∉ terminals).
Proof.
  unfold play. destruct sound as [s|]; [| by left].
  destruct (sound_exists w activePack (file s)) eqn:He; simpl; [| by left].
  right. exists s. split; [done |]. split; [done |].
  destruct (notify v); [| by left].
  destruct (foreground w) as [app|] eqn:Hf.
  - destruct (includes terminals app) eqn:Hi; [by left |].
    right. split; [done |]. split; [done |].
    intros app' [= <-] Hin. apply includes_elem in Hin. congruence.
  - right. split; [done |]. split; [done |]. discriminate.
Qed.

(** What lies behind a sound the handler played. *)
Lemma event_plays_inv (w : World) (ev : Event) (fs : Files) acts vol pack f :
  (event w ev fs).1 = Normal acts →
  Afplay vol pack f ∈ acts →
  ∃ v fs0 c state1 manifest s state2,
    paused (loadConfig fs).1 = false ∧
    switch_event (now w) (loadConfig fs).1 ev (loadConfig fs).2
      = (Normal (Some v), fs0) ∧
    category v = Some c ∧
    resolveActivePack (rnd_pack w) (loadConfig fs).1 (loadState fs0).1 (sessionID v)
      = (pack, state1) ∧
    loadManifest w pack = Some manifest ∧
    pickSound (rnd_sound w) manifest c state1 = Normal (Some s, state2) ∧
    file s = f ∧ vol = volume (loadConfig fs).1 ∧
    sound_exists w pack f = true ∧
    (event w ev fs).2 = (saveState state2 fs0).2 ∧
    acts = play w (loadConfig fs).1 v pack (Some s).
Proof.
  intros Hacts Hin.
  destruct (paused (loadConfig fs).1) eqn:Hp.
  { rewrite (event_paused w ev fs Hp) in Hacts. injection Hacts as <-.
    by apply not_elem_of_nil in Hin. }
  rewrite (event_running w ev fs Hp) in Hacts |- *.
  destruct (switch_event _ _ _ _) as [[[v|]|e] fs0] eqn:Hsw.
  2: { injection Hacts as <-. by apply not_elem_of_nil in Hin. }
  2: { discriminate. }
  destruct (cue_cases w (loadConfig fs).1 v fs0)
    as [Hc | [Hc | (c & p & st1 & m & sound & st2 & Hcat & _ & Hr & Hm & Hpick & Hc)]];
    rewrite Hc in Hacts |- *; simpl in Hacts.
  - injection Hacts as <-. by apply not_elem_of_nil in Hin.
  - discriminate.
  - injection Hacts as <-.
    destruct (play_cases w (loadConfig fs).1 v p sound)
      as [Hnil | (s & -> & He & Hplay)].
    { rewrite Hnil in Hin. by apply not_elem_of_nil in Hin. }
    assert (Heq : vol = volume (loadConfig fs).1 ∧ pack = p ∧ f = file s).
    { destruct Hplay as [Hplay | (Hplay & _)]; rewrite Hplay in Hin;
        set_unfold in Hin; destruct Hin as [Hin | Hin];
        try (by injection Hin); try done.
      destruct Hin as [Hin | []]. discriminate. }
    destruct Heq as (-> & -> & ->).
    exists v, fs0, c, st1, m, s, st2. done.
Qed.

Lemma cue_config_json (w : World) (config : PeonConfig) (v : Locals) (fs : Files) :
  config_json (cue w config v fs).2 = config_json fs.
Proof.
  destruct (cue_cases w config v fs)
    as [Hc | [Hc | (c & p & st1 & m & sound & st2 & _ & _ & _ & _ & _ & Hc)]];
    by rewrite Hc.
Qed.

Lemma event_config_json (w : World) (ev : Event) (fs : Files) :
  config_json (event w ev fs).2 = config_json (loadConfig fs).2.
Proof.
  destruct (paused (loadConfig fs).1) eqn:Hp.
  - rewrite (event_paused w ev fs Hp). simpl. symmetry. f_equal.
    apply loadConfig_not_default. intros E. rewrite E in Hp. discriminate.
  - rewrite (event_running w ev fs Hp).
    pose proof (switch_event_keeps (now w) (loadConfig fs).1 ev (loadConfig fs).2)
      as (Hk & _).
    destruct (switch_event _ _ _ _) as [[[v|]|e] fs0]; simpl in *; [| done | done].
    by rewrite cue_config_json.
Qed.

Lemma event_same_config (w : World) (ev : Event) (fs : Files) :
  (loadConfig (event w ev fs).2).1 = (loadConfig fs).1.
Proof.
  rewrite (loadConfig_config_json _ _ (event_config_json w ev fs)).
  apply loadConfig_again.
Qed.

Lemma pickSound_some_inv rnd manifest category state pick state' :
  pickSound rnd manifest category state = Normal (Some pick, state') →
  ∃ cat, manifest_categories manifest !! category_key category = Some cat ∧
         pick ∈ candidates_of category state cat ∧
         state' = set_last_played state (category_key category) (file pick).
Proof.
  intros Hp.
  destruct (manifest_categories manifest !! category_key category) as [cat|] eqn:Hcat.
  - exists cat. split; [done |]. by apply (pickSound_inv rnd manifest).
  - rewrite (pickSound_absent rnd _ _ _ Hcat) in Hp. discriminate.
Qed.

Lemma resolveActivePack_last_played rnd config state sid :
  last_played (resolveActivePack rnd config state sid).2 = last_played state.
Proof.
  destruct (decide (pack_rotation config = [])) as [H|H].
  - by rewrite resolveActivePack_no_rotation.
  - destruct (resolveActivePack_rotation rnd config state sid H)
      as (pack & _ & [[-> _] | ->]); [done |].
    by destruct (assign_session_pack_cases state sid pack) as [-> | ->].
Qed.

(** The state the resolver of the handler starts from. *)
Lemma state_before_resolve (now : Q) (config : PeonConfig) (ev : Event) (fs : Files) :
  last_played (loadState (switch_event now config ev (loadConfig fs).2).2).1
  = last_played (loadState fs).1 ∧
  session_packs (loadState (switch_event now config ev (loadConfig fs).2).2).1
  = session_packs (loadState fs).1.
Proof.
  destruct (switch_event_keeps now config ev (loadConfig fs).2) as (_ & Hl & Hs).
  rewrite Hl, Hs.
  by rewrite (loadState_state_json _ _ (loadConfig_state_json fs)).
Qed.

(** X12. The handler plays nothing, plays a sound, or plays a sound and
    notifies, in that order: never a notification without a sound. It
    notifies only for an idle session, a session error or a permission
    request, with the message of that event, and only when the frontmost
    application is not one of the terminals. *)
Theorem event_actions_shape (w : World) (ev : Event) (fs : Files) acts :
  (event w ev fs).1 = Normal acts →
  acts = [] ∨
  ∃ pack f,
    sound_exists w pack f = true ∧
    (acts = [Afplay (volume (loadConfig fs).1) pack f] ∨
     ∃ msg,
       acts = [Afplay (volume (loadConfig fs).1) pack f; Notification msg] ∧
       (∀ app, foreground w = Some app → app ∉ terminals) ∧
       ((∃ sid, ev = session_idle sid) ∧ msg = "Task complete" ∨
        (∃ sid, ev = session_error sid) ∧ msg = "Session error" ∨
        (∃ sid, ev = permission_asked sid) ∧ msg = "Permission needed")).
Proof.
  intros Hacts.
  destruct (paused (loadConfig fs).1) eqn:Hp.
  { rewrite (event_paused w ev fs Hp) in Hacts. injection Hacts as <-. by left. }
  rewrite (event_running w ev fs Hp) in Hacts.
  destruct (switch_event _ _ _ _) as [[[v|]|e] fs0] eqn:Hsw;
    [| injection Hacts as <-; by left | discriminate].
  pose proof (switch_event_locals (now w) (loadConfig fs).1 ev (loadConfig fs).2 v)
    as Hloc. rewrite Hsw in Hloc. destruct (Hloc eq_refl) as (_ & _ & Hnotify).
  destruct (cue_cases w (loadConfig fs).1 v fs0)
    as [Hc | [Hc | (c & p & st1 & m & sound & st2 & _ & _ & _ & _ & _ & Hc)]];
    rewrite Hc in Hacts; simpl in Hacts; [injection Hacts as <-; by left | done |].
  injection Hacts as <-.
  destruct (play_cases w (loadConfig fs).1 v p sound)
    as [Hnil | (s & -> & He & [Hplay | (Hplay & Hn & Hfg)])]; [by left | |].
  - right. exists p, (file s). split; [done |]. by left.
  - right. exists p, (file s). split; [done |]. right.
    exists (notifyMessage v). split; [done |]. split; [done |]. by apply Hnotify.
Qed.

Lemma event_actions_shape_witness :
  [Afplay (1 # 2) "peon" "a.mp3"; Notification "Task complete"] = [] ∨
  ∃ pack f,
    sound_exists loud_world pack f = true ∧
    ([Afplay (1 # 2) "peon" "a.mp3"; Notification "Task complete"]
       = [Afplay (volume (loadConfig no_files).1) pack f] ∨
     ∃ msg,
       [Afplay (1 # 2) "peon" "a.mp3"; Notification "Task complete"]
         = [Afplay (volume (loadConfig no_files).1) pack f; Notification msg] ∧
       (∀ app, foreground loud_world = Some app → app ∉ terminals) ∧
       ((∃ sid, session_idle "s" = session_idle sid) ∧ msg = "Task complete" ∨
        (∃ sid, session_idle "s" = session_error sid) ∧ msg = "Session error" ∨
        (∃ sid, session_idle "s" = permission_asked sid) ∧ msg = "Permission needed")).
Proof.
  apply (event_actions_shape loud_world (session_idle "s") no_files). reflexivity.
Defined.

(** X13. A sound the handler plays is a sound of the event's category in the
    manifest of the pack played, its file exists, it is played at the
    configured volume, the pack is [active_pack] or, under a rotation, a
    member of the rotation, and the file is what [last_played] holds for
    the category on file afterwards. *)
Theorem event_plays_installed_sound (w : World) (ev : Event) (fs : Files)
    acts vol pack f :
  (event w ev fs).1 = Normal acts →
  Afplay vol pack f ∈ acts →
  vol = volume (loadConfig fs).1 ∧
  sound_exists w pack f = true ∧
  (pack_rotation (loadConfig fs).1 = [] ∧ pack = active_pack (loadConfig fs).1 ∨
   pack ∈ pack_rotation (loadConfig fs).1) ∧
  ∃ manifest c cat s,
    loadManifest w pack = Some manifest ∧
    category_of ev = Some c ∧
    manifest_categories manifest !! category_key c = Some cat ∧
    s ∈ sounds cat ∧ file s = f ∧
    last_played (loadState (event w ev fs).2).1 !! category_key c = Some f.
Proof.
  intros Hacts Hin.
  destruct (event_plays_inv w ev fs acts vol pack f Hacts Hin)
    as (v & fs0 & c & st1 & m & s & st2 & Hp & Hsw & Hcat & Hr & Hm & Hpick
        & Hf & Hvol & He & Hfs & _).
  split; [exact Hvol |]. split; [exact He |]. split.
  - destruct (decide (pack_rotation (loadConfig fs).1 = [])) as [E|E].
    + left. split; [exact E |].
      rewrite resolveActivePack_no_rotation in Hr by exact E. by injection Hr.
    + right.
      pose proof (resolveActivePack_member (rnd_pack w) (loadConfig fs).1
                    (loadState fs0).1 (sessionID v) E) as Hmem.
      by rewrite Hr in Hmem.
  - destruct (pickSound_some_inv _ _ _ _ _ _ Hpick) as (cat & Hc & Hcand & ->).
    exists m, c, cat, s. split; [exact Hm |]. split.
    { pose proof (switch_event_locals (now w) (loadConfig fs).1 ev (loadConfig fs).2 v)
        as Hloc. rewrite Hsw in Hloc. destruct (Hloc eq_refl) as (_ & Hco & _).
      by apply Hco. }
    split; [exact Hc |]. split; [by apply candidates_of_sounds in Hcand |].
    split; [exact Hf |].
    rewrite Hfs, loadState_saved. simpl. rewrite <- Hf. apply lookup_insert_eq.
Qed.

Lemma event_plays_installed_sound_witness :
  last_played (loadState (event loud_world (session_idle "s") no_files).2).1
    !! "complete" = Some "a.mp3".
Proof.
  destruct (event_plays_installed_sound loud_world (session_idle "s") no_files
              [Afplay (1 # 2) "peon" "a.mp3"; Notification "Task complete"]
              (1 # 2) "peon" "a.mp3" eq_refl ltac:(apply list_elem_of_here))
    as (_ & _ & _ & m & c & cat & s & _ & Hc & _ & _ & _ & Hl).
  injection Hc as <-. exact Hl.
Defined.

Lemma cue_no_manifest (w : World) (config : PeonConfig) (v : Locals) (fs : Files) :
  loadManifest w
    (resolveActivePack (rnd_pack w) config (loadState fs).1 (sessionID v)).1 = None →
  cue w config v fs = (Normal [], fs).
Proof.
  intros Hm. unfold cue. destruct (category v) as [c|]; [| done].
  case_bool_decide; [done |]. rewrite (loadState_pair fs).
  destruct (resolveActivePack _ _ _ _) as [activePack state1]. simpl in Hm.
  by rewrite Hm.
Qed.

Lemma resolveActivePack_configured rnd config state sid :
  (resolveActivePack rnd config state sid).1 = active_pack config ∨
  (resolveActivePack rnd config state sid).1 ∈ pack_rotation config.
Proof.
  destruct (decide (pack_rotation config = [])) as [E|E].
  - left. by rewrite resolveActivePack_no_rotation.
  - right. by apply resolveActivePack_member.
Qed.

(** X14. The handler never changes a [config.json] that exists; when there is
    none it leaves the default record there; either way a load after the
    event gives the configuration the event ran with. *)
Theorem event_keeps_config (w : World) (ev : Event) (fs : Files) :
  (config_json fs ≠ None → config_json (event w ev fs).2 = config_json fs) ∧
  (config_json fs = None →
   config_json (event w ev fs).2 = Some (stringify_config DEFAULT_CONFIG)) ∧
  (loadConfig (event w ev fs).2).1 = (loadConfig fs).1.
Proof.
  split; [| split; [| apply event_same_config]].
  - intros H. rewrite event_config_json. by rewrite loadConfig_existing.
  - intros H. rewrite event_config_json. by rewrite (loadConfig_missing fs H).
Qed.

Lemma event_keeps_config_witness :
  config_json (event loud_world (session_idle "s") damaged_files).2
  = config_json damaged_files ∧
  config_json (event loud_world (session_idle "s") no_files).2
  = Some (stringify_config DEFAULT_CONFIG).
Proof.
  split.
  - apply (proj1 (event_keeps_config loud_world (session_idle "s") damaged_files)).
    discriminate.
  - apply (proj1 (proj2 (event_keeps_config loud_world (session_idle "s") no_files))).
    reflexivity.
Defined.

(** X15. When none of the configured packs ([active_pack] and the rotation)
    has a manifest, every event ends without action and without
    exception, and neither a pack assignment nor a played sound is
    recorded; for a message of the user this is for a session id whose
    look-up does not end at a property inherited from [Object.prototype]. *)
Theorem event_without_manifest (w : World) (ev : Event) (fs : Files) :
  (∀ pack, pack = active_pack (loadConfig fs).1 ∨
           pack ∈ pack_rotation (loadConfig fs).1 →
           loadManifest w pack = None) →
  (∀ sid, ev = message_updated "user" sid →
          own_or_plain (prompt_timestamps (loadState fs).1) sid) →
  (event w ev fs).1 = Normal [] ∧
  last_played (loadState (event w ev fs).2).1 = last_played (loadState fs).1 ∧
  session_packs (loadState (event w ev fs).2).1 = session_packs (loadState fs).1.
Proof.
  intros Hnone Hsid.
  destruct (paused (loadConfig fs).1) eqn:Hp.
  { by rewrite (event_paused w ev fs Hp). }
  rewrite (event_running w ev fs Hp).
  pose proof (state_before_resolve (now w) (loadConfig fs).1 ev fs) as Hst.
  pose proof (switch_event_throw_inv (now w) (loadConfig fs).1 ev (loadConfig fs).2)
    as Hthrow.
  destruct (switch_event _ _ _ _) as [[[v|]|e] fs0]; simpl in *; [| done |].
  - rewrite cue_no_manifest; [done |].
    apply Hnone, resolveActivePack_configured.
  - destruct (Hthrow e eq_refl) as (sid & -> & Hsid').
    destruct Hsid'.
    rewrite (loadState_state_json _ _ (loadConfig_state_json fs)). by apply Hsid.
Qed.

Lemma event_without_manifest_witness :
  (event (quiet_world 0) (session_idle "s") no_files).1 = Normal [] ∧
  last_played (loadState (event (quiet_world 0) (session_idle "s") no_files).2).1
  = last_played (loadState no_files).1 ∧
  session_packs (loadState (event (quiet_world 0) (session_idle "s") no_files).2).1
  = session_packs (loadState no_files).1.
Proof.
  apply (event_without_manifest (quiet_world 0) (session_idle "s") no_files).
  - intros pack _. reflexivity.
  - discriminate.
Defined.

(** X16. When the handler throws, neither a pack assignment nor a played sound
    of that event is on file, and [config.json] is as a load leaves it. *)
Theorem event_throw_records_nothing (w : World) (ev : Event) (fs : Files) e :
  (event w ev fs).1 = Throw e →
  last_played (loadState (event w ev fs).2).1 = last_played (loadState fs).1 ∧
  session_packs (loadState (event w ev fs).2).1 = session_packs (loadState fs).1 ∧
  config_json (event w ev fs).2 = config_json (loadConfig fs).2.
Proof.
  intros Ht. split; [| split; [| apply event_config_json]];
    revert Ht;
    (destruct (paused (loadConfig fs).1) eqn:Hp;
     [by rewrite (event_paused w ev fs Hp) |]);
    rewrite (event_running w ev fs Hp);
    pose proof (state_before_resolve (now w) (loadConfig fs).1 ev fs) as Hst;
    (destruct (switch_event _ _ _ _) as [[[v|]|e'] fs0]; simpl in *;
     [| done | intros _; apply Hst]);
    (destruct (cue_cases w (loadConfig fs).1 v fs0)
      as [Hc | [Hc | (c & p & st1 & m & sound & st2 & _ & _ & _ & _ & _ & Hc)]];
     rewrite Hc; simpl; [done | intros _; apply Hst | done]).
Qed.

Lemma event_throw_records_nothing_witness :
  last_played
    (loadState (event repeating_world (session_idle "s")
                  (event repeating_world (session_idle "s") no_files).2).2).1
  = last_played (loadState (event repeating_world (session_idle "s") no_files).2).1.
Proof.
  apply (proj1 (event_throw_records_nothing repeating_world (session_idle "s")
                  (event repeating_world (session_idle "s") no_files).2 TypeError
                  eq_refl)).
Defined.

Lemma pickSound_session_packs rnd manifest category state sound state' :
  pickSound rnd manifest category state = Normal (sound, state') →
  session_packs state' = session_packs state.
Proof.
  unfold pickSound.
  destruct (manifest_categories manifest !! category_key category) as [cat|];
    [| by intros [= _ <-]].
  destruct (sounds cat); [by intros [= _ <-] |].
  destruct (_ !! _); [by intros [= _ <-] | discriminate].
Qed.

(** X17. Two events of one session in a row that both play a sound play from
    the same pack: the assignment of the first event is on file for the
    second, whatever the two draws. The session id is not [__proto__], for
    which no assignment is recorded. *)
Theorem event_sticky_pack (w1 w2 : World) (ev1 ev2 : Event) (fs : Files)
    (sid : string) acts1 acts2 vol1 vol2 pack1 pack2 f1 f2 :
  sid ≠ "__proto__" →
  session_of ev1 = Some sid →
  session_of ev2 = Some sid →
  (event w1 ev1 fs).1 = Normal acts1 →
  Afplay vol1 pack1 f1 ∈ acts1 →
  pack1 ≠ "" →
  (event w2 ev2 (event w1 ev1 fs).2).1 = Normal acts2 →
  Afplay vol2 pack2 f2 ∈ acts2 →
  pack2 = pack1.
Proof.
  intros Hproto Hs1 Hs2 Hacts1 Hin1 Hne Hacts2 Hin2.
  destruct (event_plays_inv w1 ev1 fs acts1 vol1 pack1 f1 Hacts1 Hin1)
    as (v1 & fs1 & c1 & st1 & m1 & s1 & st1' & _ & Hsw1 & _ & Hr1 & _ & Hpick1
        & _ & _ & _ & Hfs1 & _).
  destruct (event_plays_inv w2 ev2 _ acts2 vol2 pack2 f2 Hacts2 Hin2)
    as (v2 & fs2 & c2 & st2 & m2 & s2 & st2' & _ & Hsw2 & _ & Hr2 & _ & _).
  assert (Hcfg : (loadConfig (event w1 ev1 fs).2).1 = (loadConfig fs).1)
    by apply event_same_config.
  rewrite Hcfg in Hsw2, Hr2.
  assert (Hsid1 : sessionID v1 = sid).
  { pose proof (switch_event_locals (now w1) (loadConfig fs).1 ev1 (loadConfig fs).2 v1)
      as H. rewrite Hsw1 in H. destruct (H eq_refl) as (H1 & _). congruence. }
  assert (Hsid2 : sessionID v2 = sid).
  { pose proof (switch_event_locals (now w2) (loadConfig fs).1 ev2 (loadConfig (event w1 ev1 fs).2).2 v2)
      as H. rewrite Hsw2 in H. destruct (H eq_refl) as (H1 & _). congruence. }
  rewrite Hsid1 in Hr1. rewrite Hsid2 in Hr2.
  destruct (decide (pack_rotation (loadConfig fs).1 = [])) as [E|E].
  { rewrite resolveActivePack_no_rotation in Hr1, Hr2 by exact E. congruence. }
  assert (Hpacks : session_packs (loadState fs2).1 !! sid = Some pack1).
  { pose proof (state_before_resolve (now w2) (loadConfig fs).1 ev2 (event w1 ev1 fs).2) as [_ Hsp].
    rewrite Hsw2 in Hsp. simpl in Hsp. rewrite Hsp.
    rewrite Hfs1, loadState_saved. simpl.
    rewrite (pickSound_session_packs _ _ _ _ _ _ Hpick1).
    destruct (resolveActivePack_records (rnd_pack w1) (loadConfig fs).1
                (loadState fs1).1 sid E Hproto) as [_ Hrec].
    by rewrite Hr1 in Hrec. }
  assert (Hmem : pack1 ∈ pack_rotation (loadConfig fs).1).
  { pose proof (resolveActivePack_member (rnd_pack w1) (loadConfig fs).1
                  (loadState fs1).1 sid E) as Hmem.
    by rewrite Hr1 in Hmem. }
  rewrite (resolveActivePack_sticky (rnd_pack w2) _ _ sid pack1 Hpacks Hne Hmem) in Hr2.
  by injection Hr2.
Qed.

(** X18. Two events of one category in a row that both play a sound play
    different files when that category has at least two sounds in the
    pack of the second event, also when the two events belong to different
    sessions or packs. *)
Theorem event_never_repeats (w1 w2 : World) (ev1 ev2 : Event) (fs : Files)
    (c : SoundCategory) acts1 acts2 vol1 vol2 pack1 pack2 f1 f2 :
  category_of ev1 = Some c →
  category_of ev2 = Some c →
  (event w1 ev1 fs).1 = Normal acts1 →
  Afplay vol1 pack1 f1 ∈ acts1 →
  (event w2 ev2 (event w1 ev1 fs).2).1 = Normal acts2 →
  Afplay vol2 pack2 f2 ∈ acts2 →
  (∀ manifest cat,
     loadManifest w2 pack2 = Some manifest →
     manifest_categories manifest !! category_key c = Some cat →
     (2 ≤ length (sounds cat))%nat) →
  f2 ≠ f1.
Proof.
  intros Hc1 Hc2 Hacts1 Hin1 Hacts2 Hin2 Htwo.
  destruct (event_plays_inv w1 ev1 fs acts1 vol1 pack1 f1 Hacts1 Hin1)
    as (v1 & fs1 & c1 & st1 & m1 & s1 & st1' & _ & Hsw1 & Hcat1 & _ & _ & Hpick1
        & Hf1 & _ & _ & Hfs1 & _).
  destruct (event_plays_inv w2 ev2 _ acts2 vol2 pack2 f2 Hacts2 Hin2)
    as (v2 & fs2 & c2 & st2 & m2 & s2 & st2' & _ & Hsw2 & Hcat2 & Hr2 & Hm2 & Hpick2
        & Hf2 & _).
  assert (Hcfg : (loadConfig (event w1 ev1 fs).2).1 = (loadConfig fs).1)
    by apply event_same_config.
  rewrite Hcfg in Hsw2, Hr2.
  assert (c1 = c) as ->.
  { pose proof (switch_event_locals (now w1) (loadConfig fs).1 ev1 (loadConfig fs).2 v1)
      as H. rewrite Hsw1 in H. destruct (H eq_refl) as (_ & H1 & _).
    specialize (H1 _ Hcat1). congruence. }
  assert (c2 = c) as ->.
  { pose proof (switch_event_locals (now w2) (loadConfig fs).1 ev2 (loadConfig (event w1 ev1 fs).2).2 v2)
      as H. rewrite Hsw2 in H. destruct (H eq_refl) as (_ & H1 & _).
    specialize (H1 _ Hcat2). congruence. }
  destruct (pickSound_some_inv _ _ _ _ _ _ Hpick1) as (cat1 & _ & _ & ->).
  destruct (pickSound_some_inv _ _ _ _ _ _ Hpick2) as (cat2 & Hcat & Hcand & _).
  apply (candidates_of_not_last _ _ _ _ (Htwo m2 cat2 Hm2 Hcat)) in Hcand.
  assert (Hlast : last_played st2 !! category_key c = Some f1).
  { pose proof (resolveActivePack_last_played (rnd_pack w2) (loadConfig fs).1
                  (loadState fs2).1 (sessionID v2)) as Hl.
    rewrite Hr2 in Hl. simpl in Hl. rewrite Hl.
    pose proof (state_before_resolve (now w2) (loadConfig fs).1 ev2 (event w1 ev1 fs).2) as [Hlp _].
    rewrite Hsw2 in Hlp. simpl in Hlp. rewrite Hlp.
    rewrite Hfs1, loadState_saved. simpl. rewrite <- Hf1. apply lookup_insert_eq. }
  rewrite Hlast in Hcand. simpl in Hcand. congruence.
Qed.

Lemma event_sticky_pack_witness :
  (event first_world (session_idle "s") rotation_files).1
    = Normal [Afplay (1 # 2) "peon" "a.mp3"] ∧
  (event second_world (permission_asked "t") rotation_files).1 = Normal [] ∧
  (event second_world (session_idle "s")
     (event first_world (session_idle "s") rotation_files).2).1
    = Normal [Afplay (1 # 2) "peon" "b.mp3"] ∧
  "peon" = "peon".
Proof.
  split; [reflexivity |]. split; [reflexivity |]. split; [reflexivity |].
  apply (event_sticky_pack first_world second_world (session_idle "s")
           (session_idle "s") rotation_files "s"
           [Afplay (1 # 2) "peon" "a.mp3"] [Afplay (1 # 2) "peon" "b.mp3"]
           (1 # 2) (1 # 2) "peon" "peon" "a.mp3" "b.mp3").
  - discriminate.
  - reflexivity.
  - reflexivity.
  - reflexivity.
  - apply list_elem_of_here.
  - discriminate.
  - reflexivity.
  - apply list_elem_of_here.
Defined.

Lemma event_never_repeats_witness : "b.mp3" ≠ "a.mp3".
Proof.
  apply (event_never_repeats first_world second_world (session_idle "s")
           (session_idle "t") rotation_files complete
           [Afplay (1 # 2) "peon" "a.mp3"] [Afplay (1 # 2) "peasant" "b.mp3"]
           (1 # 2) (1 # 2) "peon" "peasant" "a.mp3" "b.mp3").
  - reflexivity.
  - reflexivity.
  - reflexivity.
  - apply list_elem_of_here.
  - reflexivity.
  - apply list_elem_of_here.
  - intros manifest cat Hm Hc. vm_compute in Hm. injection Hm as <-.
    vm_compute in Hc. injection Hc as <-. simpl. lia.
Defined.

(** ** The tools and the list of packs, continued *)

Section tools_facts.
Context (localeCompare : string → string → Z) (number_text : Q → string).

Lemma set_paused_twice (config : PeonConfig) :
  set_paused (set_paused config (negb (paused config)))
             (negb (paused (set_paused config (negb (paused config)))))
  = config.
Proof. destruct config as [a v p c t ws r]. simpl. by rewrite negb_involutive. Qed.

Lemma peon_toggle_files (action : option ToggleAction) (fs : Files) :
  (peon_toggle number_text action fs).2
  = match default toggle action with
    | toggle =>
      (saveConfig (set_paused (loadConfig fs).1 (negb (paused (loadConfig fs).1)))
                  (loadConfig fs).2).2
    | pause => (saveConfig (set_paused (loadConfig fs).1 true) (loadConfig fs).2).2
    | resume => (saveConfig (set_paused (loadConfig fs).1 false) (loadConfig fs).2).2
    | status => (loadConfig fs).2
    end.
Proof.
  unfold peon_toggle. destruct (loadConfig fs) as [config fs1].
  by destruct (default toggle action).
Qed.

Lemma peon_volume_files (level : Q) (fs : Files) :
  (peon_volume number_text level fs).2
  = (saveConfig (set_volume (loadConfig fs).1 level) (loadConfig fs).2).2.
Proof. unfold peon_volume. by destruct (loadConfig fs) as [config fs1]. Qed.

(** X19. Toggling twice gives back the configuration: a load after the second
    toggle returns what a load before the first returned. *)
Theorem peon_toggle_twice (a1 a2 : option ToggleAction) (fs : Files) :
  default toggle a1 = toggle →
  default toggle a2 = toggle →
  (loadConfig (peon_toggle number_text a2 (peon_toggle number_text a1 fs).2).2).1
  = (loadConfig fs).1.
Proof.
  intros H1 H2. rewrite (peon_toggle_files a2), H2.
  rewrite (peon_toggle_files a1), H1.
  rewrite !loadConfig_saved. simpl. apply set_paused_twice.
Qed.

(** X20. [pause] and [resume] set the flag and keep every other field,
    whatever the flag was; [status] writes nothing that a load does not
    write. *)
Theorem peon_toggle_pause_resume (fs : Files) :
  (loadConfig (peon_toggle number_text (Some pause) fs).2).1
  = set_paused (loadConfig fs).1 true ∧
  (loadConfig (peon_toggle number_text (Some resume) fs).2).1
  = set_paused (loadConfig fs).1 false ∧
  (loadConfig (peon_toggle number_text (Some resume)
                 (peon_toggle number_text (Some pause) fs).2).2).1
  = set_paused (loadConfig fs).1 false ∧
  (peon_toggle number_text (Some status) fs).2 = (loadConfig fs).2.
Proof.
  rewrite !peon_toggle_files. cbn [from_option id]. rewrite !loadConfig_saved.
  done.
Qed.

(** X21. After [pause], every event plays nothing, notifies nothing and leaves
    both files as they are, in every world. *)
Theorem peon_toggle_pause_silences (w : World) (ev : Event) (fs : Files) :
  event w ev (peon_toggle number_text (Some pause) fs).2
  = (Normal [], (peon_toggle number_text (Some pause) fs).2).
Proof.
  apply event_paused. rewrite peon_toggle_files. cbn [from_option id].
  by rewrite loadConfig_saved.
Qed.

(** X22. After [peon_volume], the configuration differs from the one before
    in the volume only, and every sound a following event plays is played
    at that level. *)
Theorem peon_volume_applies (level : Q) (w : World) (ev : Event) (fs : Files)
    acts vol pack f :
  (loadConfig (peon_volume number_text level fs).2).1
  = set_volume (loadConfig fs).1 level ∧
  ((event w ev (peon_volume number_text level fs).2).1 = Normal acts →
   Afplay vol pack f ∈ acts →
   vol = level).
Proof.
  assert (Hc : (loadConfig (peon_volume number_text level fs).2).1
               = set_volume (loadConfig fs).1 level).
  { rewrite peon_volume_files. by rewrite loadConfig_saved. }
  split; [exact Hc |]. intros Hacts Hin.
  destruct (event_plays_inv w ev _ acts vol pack f Hacts Hin)
    as (v & fs0 & c & st1 & m & s & st2 & _ & _ & _ & _ & _ & _ & _ & Hvol & _).
  by rewrite Hvol, Hc.
Qed.

(** X23. None of the tools touches [state.json]. *)
Theorem tools_keep_state (w : World) (packsDir : option (list Dirent))
    (pack : option string) (action : option ToggleAction) (level : Q) (fs : Files) :
  state_json (peon_pack localeCompare w packsDir pack fs).2 = state_json fs ∧
  state_json (peon_toggle number_text action fs).2 = state_json fs ∧
  state_json (peon_volume number_text level fs).2 = state_json fs.
Proof.
  split; [| split].
  - unfold peon_pack. pose proof (loadConfig_state_json fs) as H.
    destruct (loadConfig fs) as [config fs1]. simpl in H.
    destruct pack as [wanted|]; [| done].
    destruct (truthy wanted); [| done].
    by destruct (find_pack _ _).
  - rewrite peon_toggle_files.
    destruct (default toggle action); simpl; apply loadConfig_state_json.
  - rewrite peon_volume_files. simpl. apply loadConfig_state_json.
Qed.

End tools_facts.

Lemma peon_toggle_twice_witness :
  (loadConfig (peon_toggle half_text None
                 (peon_toggle half_text (Some toggle) paused_files).2).2).1
  = (loadConfig paused_files).1.
Proof.
  apply (peon_toggle_twice half_text (Some toggle) None paused_files); reflexivity.
Defined.

Lemma peon_volume_applies_witness : (1 # 4)%Q = (1 # 4)%Q.
Proof.
  apply (proj2 (peon_volume_applies half_text (1 # 4) loud_world (session_idle "s")
                  no_files
                  [Afplay (1 # 4) "peon" "a.mp3"; Notification "Task complete"]
                  (1 # 4) "peon" "a.mp3")).
  - reflexivity.
  - apply list_elem_of_here.
Defined.

Section packs_facts.
Context (localeCompare : string → string → Z).

Lemma listAvailablePacks_elem (w : World) (entries : list Dirent) (p : PackInfo) :
  p ∈ listAvailablePacks localeCompare w (Some entries) ↔
  ∃ d manifest,
    d ∈ entries ∧ isDirectory d = true ∧
    loadManifest w (dirent_name d) = Some manifest ∧
    p = {| info_name := dirent_name d; displayName := display_name manifest |}.
Proof.
  unfold listAvailablePacks. rewrite merge_sort_Permutation.
  rewrite list_elem_of_filter, list_elem_of_In, in_map_iff. split.
  - intros (Hm & d & <- & Hd).
    apply list_elem_of_In, list_elem_of_filter in Hd as [Hdir Hd]. simpl in Hm.
    destruct (loadManifest w (dirent_name d)) as [manifest|] eqn:E; [| done].
    exists d, manifest. done.
  - intros (d & manifest & Hd & Hdir & Hm & ->). simpl. rewrite Hm.
    split; [done |]. exists d. split; [simpl; by rewrite Hm |].
    apply list_elem_of_In, list_elem_of_filter. done.
Qed.

Lemma find_pack_installed (w : World) (packsDir : option (list Dirent))
    (wanted : string) :
  match find_pack (listAvailablePacks localeCompare w packsDir) wanted with
  | Some target =>
    installed w packsDir wanted ∧ info_name target = wanted ∧
    ∃ manifest, loadManifest w wanted = Some manifest ∧
                displayName target = display_name manifest
  | None => ¬ installed w packsDir wanted
  end.
Proof.
  unfold find_pack.
  destruct (List.find _ _) as [target|] eqn:Hfind.
  - apply find_some in Hfind as [Hin Hname].
    apply bool_decide_eq_true in Hname. apply list_elem_of_In in Hin.
    destruct packsDir as [entries|]; [| by apply not_elem_of_nil in Hin].
    apply listAvailablePacks_elem in Hin as (d & manifest & Hd & Hdir & Hm & ->).
    simpl in *. subst wanted. split; [| split; [done | by exists manifest]].
    exists entries, d. rewrite Hm. done.
  - intros (entries & d & -> & Hd & Hname & Hdir & Hm).
    destruct (loadManifest w wanted) as [manifest|] eqn:E; [| done].
    assert (Hin : {| info_name := wanted; displayName := display_name manifest |}
                  ∈ listAvailablePacks localeCompare w (Some entries)).
    { apply listAvailablePacks_elem. exists d, manifest. rewrite Hname. done. }
    apply list_elem_of_In in Hin.
    pose proof (find_none _ _ Hfind _ Hin) as Hno. simpl in Hno.
    by apply bool_decide_eq_false in Hno.
Qed.

(** X24. The list of packs holds exactly the directories of [packs] whose
    manifest loads, each with the display name of its manifest; without
    the directory [packs] it is empty; under a total [localeCompare] it is
    ordered by name. *)
Theorem listAvailablePacks_lists_installed (w : World)
    (packsDir : option (list Dirent)) :
  (packsDir = None → listAvailablePacks localeCompare w packsDir = []) ∧
  (∀ p, p ∈ listAvailablePacks localeCompare w packsDir ↔
        installed w packsDir (info_name p) ∧
        ∃ manifest, loadManifest w (info_name p) = Some manifest ∧
                    displayName p = display_name manifest) ∧
  ((∀ a b, (localeCompare a b ≤ 0)%Z ∨ (localeCompare b a ≤ 0)%Z) →
   Sorted (name_before localeCompare) (listAvailablePacks localeCompare w packsDir)).
Proof.
  split; [by intros -> |]. split.
  - intros p. destruct packsDir as [entries|].
    + rewrite listAvailablePacks_elem. split.
      * intros (d & manifest & Hd & Hdir & Hm & ->). simpl. split.
        -- exists entries, d. rewrite Hm. done.
        -- by exists manifest.
      * intros ((entries' & d & [= <-] & Hd & Hname & Hdir & _) & manifest & Hm & Hdn).
        exists d, manifest. rewrite Hname. repeat split; try done.
        destruct p as [n dn]. simpl in *. congruence.
    + simpl. split; [by intros H%not_elem_of_nil |].
      by intros ((entries & d & [=] & _) & _).
  - intros Htotal. destruct packsDir as [entries|]; [| constructor].
    unfold listAvailablePacks. apply Sorted_merge_sort.
    intros a b. apply Htotal.
Qed.

Lemma peon_pack_installed_files (w : World) (packsDir : option (list Dirent))
    (wanted : string) (fs : Files) :
  wanted ≠ "" →
  installed w packsDir wanted →
  (peon_pack localeCompare w packsDir (Some wanted) fs).2
  = (saveConfig (set_active_pack (loadConfig fs).1 wanted) (loadConfig fs).2).2.
Proof.
  intros Hne Hinst. pose proof (find_pack_installed w packsDir wanted) as Hfind.
  unfold peon_pack. destruct (loadConfig fs) as [config fs1]. simpl.
  rewrite (truthy_nonempty wanted Hne).
  destruct (find_pack _ wanted) as [target|]; [| done].
  destruct Hfind as (_ & Hname & _). by rewrite Hname.
Qed.

(** X25. [peon_pack] with the name of an installed pack makes it the active
    pack, keeps every other field and answers with the name and display
    name; with any other name it leaves the configuration alone; listing
    the packs (no name, or the empty name) writes nothing either. *)
Theorem peon_pack_switches_to_installed (w : World)
    (packsDir : option (list Dirent)) (wanted : string) (fs : Files) :
  wanted ≠ "" →
  (installed w packsDir wanted →
   ∃ manifest,
     loadManifest w wanted = Some manifest ∧
     peon_pack localeCompare w packsDir (Some wanted) fs
     = ("Switched to " +:+ wanted +:+ " (" +:+ display_name manifest +:+ ")",
        (saveConfig (set_active_pack (loadConfig fs).1 wanted) (loadConfig fs).2).2)) ∧
  (¬ installed w packsDir wanted →
   (peon_pack localeCompare w packsDir (Some wanted) fs).2 = (loadConfig fs).2) ∧
  (peon_pack localeCompare w packsDir None fs).2 = (loadConfig fs).2 ∧
  peon_pack localeCompare w packsDir (Some "") fs
  = peon_pack localeCompare w packsDir None fs.
Proof.
  intros Hne. pose proof (find_pack_installed w packsDir wanted) as Hfind.
  unfold peon_pack. destruct (loadConfig fs) as [config fs1]. simpl.
  rewrite (truthy_nonempty wanted Hne).
  destruct (find_pack _ wanted) as [target|].
  - destruct Hfind as (Hinst & Hname & manifest & Hm & Hdn).
    split; [| split; [intros Hn; by destruct (Hn Hinst) | done]].
    intros _. exists manifest. split; [exact Hm |]. by rewrite Hname, Hdn.
  - split; [intros Hi; by destruct (Hfind Hi) |]. done.
Qed.

(** X26. After a successful [peon_pack], with no rotation configured, every
    sound a following event plays comes from the chosen pack. *)
Theorem peon_pack_then_event (w : World) (packsDir : option (list Dirent))
    (wanted : string) (w' : World) (ev : Event) (fs : Files) acts vol pack f :
  wanted ≠ "" →
  installed w packsDir wanted →
  pack_rotation (loadConfig fs).1 = [] →
  (event w' ev (peon_pack localeCompare w packsDir (Some wanted) fs).2).1
    = Normal acts →
  Afplay vol pack f ∈ acts →
  pack = wanted.
Proof.
  intros Hne Hinst Hrot Hacts Hin.
  rewrite (peon_pack_installed_files w packsDir wanted fs Hne Hinst) in Hacts.
  destruct (event_plays_inv w' ev _ acts vol pack f Hacts Hin)
    as (v & fs0 & c & st1 & m & s & st2 & _ & _ & _ & Hr & _).
  rewrite loadConfig_saved in Hr. simpl in Hr.
  rewrite resolveActivePack_no_rotation in Hr by exact Hrot.
  by injection Hr.
Qed.

End packs_facts.

Lemma byte_compare_total (a b : string) :
  (byte_compare a b ≤ 0)%Z ∨ (byte_compare b a ≤ 0)%Z.
Proof.
  unfold byte_compare. rewrite (String.compare_antisym a b).
  destruct (String.compare b a); simpl; lia.
Qed.

Lemma peon_installed : installed loud_world some_packs_dir "peon".
Proof.
  eexists _, {| dirent_name := "peon"; isDirectory := true |}.
  split; [reflexivity |].
  split; [apply list_elem_of_further, list_elem_of_here |]. done.
Qed.

Lemma listAvailablePacks_lists_installed_witness :
  listAvailablePacks byte_compare loud_world None = [] ∧
  Sorted (name_before byte_compare)
         (listAvailablePacks byte_compare loud_world some_packs_dir).
Proof.
  split.
  - apply (proj1 (listAvailablePacks_lists_installed byte_compare loud_world None)).
    reflexivity.
  - apply (proj2 (proj2 (listAvailablePacks_lists_installed byte_compare loud_world
                           some_packs_dir))).
    apply byte_compare_total.
Defined.

Lemma peon_pack_switches_to_installed_witness :
  (∃ manifest,
     loadManifest loud_world "peon" = Some manifest ∧
     peon_pack byte_compare loud_world some_packs_dir (Some "peon") paused_files
     = ("Switched to " +:+ "peon" +:+ " (" +:+ display_name manifest +:+ ")",
        (saveConfig (set_active_pack (loadConfig paused_files).1 "peon")
                    (loadConfig paused_files).2).2)) ∧
  (peon_pack byte_compare loud_world some_packs_dir (Some "zug") paused_files).2
  = (loadConfig paused_files).2.
Proof.
  split.
  - apply (proj1 (peon_pack_switches_to_installed byte_compare loud_world
                    some_packs_dir "peon" paused_files ltac:(discriminate))).
    apply peon_installed.
  - apply (proj1 (proj2 (peon_pack_switches_to_installed byte_compare loud_world
                    some_packs_dir "zug" paused_files ltac:(discriminate)))).
    intros (entries & d & _ & _ & _ & _ & Hm). by apply Hm.
Defined.

Lemma peon_pack_then_event_witness : "peon" = "peon".
Proof.
  apply (peon_pack_then_event byte_compare loud_world some_packs_dir "peon"
           loud_world (session_idle "s") no_files
           [Afplay (1 # 2) "peon" "a.mp3"; Notification "Task complete"]
           (1 # 2) "peon" "a.mp3").
  - discriminate.
  - apply peon_installed.
  - reflexivity.
  - reflexivity.
  - apply list_elem_of_here.
Defined.

(** ** Notifications *)

(** X27. An idle session, a session error or a permission request whose sound
    is played is also notified, with the message of the event, whenever
    the frontmost application is not one of the terminals or cannot be
    found out. *)
Theorem event_notifies_when_unfocused (w : World) (ev : Event) (fs : Files)
    acts vol pack f :
  (event w ev fs).1 = Normal acts →
  Afplay vol pack f ∈ acts →
  (∀ app, foreground w = Some app → app ∉ terminals) →
  ((∃ sid, ev = session_idle sid) → Notification "Task complete" ∈ acts) ∧
  ((∃ sid, ev = session_error sid) → Notification "Session error" ∈ acts) ∧
  ((∃ sid, ev = permission_asked sid) → Notification "Permission needed" ∈ acts).
Proof.
  intros Hacts Hin Hfg.
  destruct (event_plays_inv w ev fs acts vol pack f Hacts Hin)
    as (v & fs0 & c & st1 & m & s & st2 & _ & Hsw & _ & _ & _ & _ & Hf & _ & He
        & _ & ->).
  assert (Hfocus : match foreground w with
                   | Some app => includes terminals app
                   | None => false
                   end = false).
  { destruct (foreground w) as [app|] eqn:E; [| done].
    apply not_true_iff_false. intros Hi%includes_elem. by apply (Hfg app). }
  assert (Hplay : notify v = true →
            Notification (notifyMessage v) ∈ play w (loadConfig fs).1 v pack (Some s)).
  { intros Hn. unfold play. rewrite Hf, He. simpl. rewrite Hn, Hfocus.
    apply list_elem_of_further, list_elem_of_here. }
  split; [| split]; intros [sid ->]; simpl in Hsw; injection Hsw as <- <-;
    by apply Hplay.
Qed.

Lemma event_notifies_when_unfocused_witness :
  Notification "Task complete"
  ∈ [Afplay (1 # 2) "peon" "a.mp3"; Notification "Task complete"].
Proof.
  refine (proj1 (event_notifies_when_unfocused loud_world (session_idle "s") no_files
            [Afplay (1 # 2) "peon" "a.mp3"; Notification "Task complete"]
            (1 # 2) "peon" "a.mp3" eq_refl _ _) _).
  - apply list_elem_of_here.
  - intros app Happ. injection Happ as <-.
    apply (bool_decide_unpack _). by vm_compute.
  - by exists "s".
Defined.

(** ** Session ids that name a property of [Object.prototype] *)

(** X28. A message of the user whose session id names a property of
    [Object.prototype] and has no timestamps of its own on file makes the
    handler, when not paused, throw in the switch: the look-up finds the
    inherited property, which has no [filter]. Nothing is saved. *)
Theorem event_throws_on_inherited_session (w : World) (sid : string) (fs : Files) :
  paused (loadConfig fs).1 = false →
  sid ∈ Object_prototype_names →
  prompt_timestamps (loadState fs).1 !! sid = None →
  event w (message_updated "user" sid) fs = (Throw TypeError, (loadConfig fs).2) ∧
  state_json (event w (message_updated "user" sid) fs).2 = state_json fs.
Proof.
  intros Hp Hin Hnone.
  assert (Hsid : ¬ own_or_plain (prompt_timestamps (loadState (loadConfig fs).2).1) sid).
  { rewrite (loadState_state_json _ _ (loadConfig_state_json fs)).
    intros [H | H]; done. }
  rewrite (event_running w _ fs Hp), (switch_event_message_throws _ _ _ _ Hsid).
  split; [reflexivity | apply loadConfig_state_json].
Qed.

Lemma event_throws_on_inherited_session_witness :
  event (quiet_world 0) (message_updated "user" "constructor") no_files
  = (Throw TypeError, (loadConfig no_files).2) ∧
  state_json (event (quiet_world 0) (message_updated "user" "constructor") no_files).2
  = state_json no_files.
Proof.
  apply (event_throws_on_inherited_session (quiet_world 0) "constructor" no_files).
  - reflexivity.
  - apply (bool_decide_unpack _). by vm_compute.
  - reflexivity.
Defined.

(** X29. Under a rotation the session id [__proto__], when it is not an own
    key of [session_packs], is never given a lasting pack: every call
    returns a pack of the rotation and leaves the state as it was, and
    each pack of the rotation is returned for some draw. *)
Theorem resolveActivePack_proto_not_recorded
    (rnd : Random) (config : PeonConfig) (state : PeonState) :
  pack_rotation config ≠ [] →
  session_packs state !! "__proto__" = None →
  (resolveActivePack rnd config state "__proto__").1 ∈ pack_rotation config ∧
  (resolveActivePack rnd config state "__proto__").2 = state ∧
  ∀ pack, pack ∈ pack_rotation config →
          ∃ rnd', resolveActivePack rnd' config state "__proto__" = (pack, state).
Proof.
  intros Hrot Hnone.
  assert (Hcall : ∀ r, resolveActivePack r config state "__proto__"
            = (nth (random_index r (length (pack_rotation config)))
                   (pack_rotation config) (default "" (head (pack_rotation config))),
               state)).
  { intros r. unfold resolveActivePack, get_property, assign_session_pack.
    rewrite Hnone. destruct (pack_rotation config) as [|first rest]; [done |].
    reflexivity. }
  split; [by apply resolveActivePack_member |]. split; [by rewrite Hcall |].
  intros pack Hin. apply list_elem_of_lookup in Hin as [k Hk].
  pose proof (lookup_lt_Some _ _ _ Hk) as Hlt.
  exists (draw k _ Hlt). rewrite Hcall, random_index_draw.
  by rewrite (nth_lookup_Some _ _ _ _ Hk).
Qed.

Lemma resolveActivePack_proto_not_recorded_witness :
  (resolveActivePack draw_0_of_2 (with_rotation ["a"; "b"]) EMPTY_STATE "__proto__").2
  = EMPTY_STATE.
Proof.
  apply (proj1 (proj2 (resolveActivePack_proto_not_recorded draw_0_of_2
                         (with_rotation ["a"; "b"]) EMPTY_STATE
                         ltac:(discriminate) eq_refl))).
Defined.
